(** * Monte Carlo objectives of probtorch: [elbo], [log_like], [kl], [ml]

    A shallow embedding of [probtorch/objectives/montecarlo.py].

    - Python floats and tensor elements are idealised as real numbers
      ([R]); rounding, infinities and nan are outside the model.
    - A torch tensor is a nested list of reals ([tensor]); the tensor
      operations the module calls ([mean], [sum(0)], [softmax(.,0)] and
      broadcasting arithmetic) are written out on that representation.
    - A Python exception is a value of [exn] carried by [result]. *)

From Stdlib Require Import String Reals Lra ZArith Bool Lia List.
Import ListNotations.
Open Scope R_scope.

(** ** Exceptions *)

Inductive exn : Type :=
| AttributeError   (* a method looked up on an object that lacks it *)
| RuntimeError     (* torch: operands cannot be broadcast together *)
| IndexError.      (* torch: axis out of range *)

Inductive result (A : Type) : Type :=
| Ok (a : A)
| Raise (e : exn).
Arguments Ok {A} a.
Arguments Raise {A} e.

Definition bind {A B : Type} (m : result A) (k : A -> result B) : result B :=
  match m with
  | Ok a => k a
  | Raise e => Raise e
  end.

Notation "x <- m ;; k" := (bind m (fun x => k))
  (at level 61, m at next level, right associativity).

Definition fmap {A B : Type} (f : A -> B) (m : result A) : result B :=
  x <- m ;; Ok (f x).

Fixpoint mapM {A B : Type} (f : A -> result B) (l : list A) : result (list B) :=
  match l with
  | [] => Ok []
  | a :: l' => b <- f a ;; bs <- mapM f l' ;; Ok (b :: bs)
  end.

Fixpoint zipM {A B C : Type} (f : A -> B -> result C)
         (l : list A) (l' : list B) : result (list C) :=
  match l, l' with
  | a :: t, b :: t' => c <- f a b ;; cs <- zipM f t t' ;; Ok (c :: cs)
  | _, _ => Ok []
  end.

Definition is_ok {A : Type} (m : result A) : bool :=
  match m with Ok _ => true | Raise _ => false end.

(** ** Tensors *)

(** [T0 x] is a 0-dimensional tensor; [TN ts] lists the slices along
    axis 0.  A tensor with an axis of size zero is [TN []]. *)
#[local] Unset Elimination Schemes.
Inductive tensor : Type :=
| T0 (x : R)
| TN (ts : list tensor).
#[local] Set Elimination Schemes.

Section TensorInd.
Variable P : tensor -> Prop.
Hypothesis P_T0 : forall x, P (T0 x).
Hypothesis P_TN : forall ts, Forall P ts -> P (TN ts).

Fixpoint tensor_nested_ind (t : tensor) : P t :=
  match t with
  | T0 x => P_T0 x
  | TN ts =>
      P_TN ts ((fix all (l : list tensor) : Forall P l :=
                  match l with
                  | [] => Forall_nil P
                  | u :: l' => Forall_cons u (tensor_nested_ind u) (all l')
                  end) ts)
  end.
End TensorInd.

Fixpoint tmap (f : R -> R) (t : tensor) : tensor :=
  match t with
  | T0 x => T0 (f x)
  | TN ts => TN (map (tmap f) ts)
  end.

(** Sum and number of all elements; [t.mean()] is their quotient.  For a
    tensor without elements torch returns nan, which the real numbers do
    not have: there [tmean] is not the value of the code, and the
    statements that give a mean its value ask for axes of positive
    size. *)
Fixpoint tsum (t : tensor) : R :=
  match t with
  | T0 x => x
  | TN ts => fold_right (fun u acc => tsum u + acc) 0 ts
  end.

Fixpoint numel (t : tensor) : nat :=
  match t with
  | T0 _ => 1%nat
  | TN ts => fold_right (fun u acc => (numel u + acc)%nat) 0%nat ts
  end.

Definition tmean (t : tensor) : R := tsum t / INR (numel t).

Fixpoint ndim (t : tensor) : nat :=
  match t with
  | T0 _ => 0%nat
  | TN [] => 1%nat
  | TN (u :: _) => S (ndim u)
  end.

(** Element at a multi-index, axis 0 first. *)
Fixpoint tget (idx : list nat) (t : tensor) : option R :=
  match idx, t with
  | [], T0 x => Some x
  | i :: idx', TN ts =>
      match nth_error ts i with
      | Some u => tget idx' u
      | None => None
      end
  | _, _ => None
  end.

Definition shape_eqb (a b : option (list nat)) : bool :=
  match a, b with
  | Some x, Some y => if list_eq_dec Nat.eq_dec x y then true else false
  | _, _ => false
  end.

(** [shape t] is [Some sh] exactly for rectangular nested lists. *)
Fixpoint shape (t : tensor) : option (list nat) :=
  match t with
  | T0 _ => Some []
  | TN [] => Some [0%nat]
  | TN (u :: ts) =>
      match shape u with
      | Some sh =>
          if forallb (fun v => shape_eqb (shape v) (Some sh)) ts
          then Some (S (length ts) :: sh)
          else None
      | None => None
      end
  end.

(** [has_shape sh t]: [t] is rectangular with axis sizes [sh]. *)
Fixpoint has_shape (sh : list nat) (t : tensor) : Prop :=
  match sh with
  | [] => exists x, t = T0 x
  | n :: sh' =>
      exists ts, t = TN ts /\ length ts = n /\ Forall (has_shape sh') ts
  end.

(** [in_bounds idx sh]: [idx] addresses an element of a tensor of shape
    [sh]. *)
Definition in_bounds (idx sh : list nat) : Prop := Forall2 lt idx sh.

Definition lift2 (f : R -> R -> R) (a b : option R) : option R :=
  match a, b with
  | Some x, Some y => Some (f x y)
  | _, _ => None
  end.

(** Elementwise combination of two tensors of one shape. *)
Fixpoint tzip (f : R -> R -> R) (a b : tensor) : tensor :=
  match a, b with
  | T0 x, T0 y => T0 (f x y)
  | TN xs, TN ys =>
      TN ((fix go (l : list tensor) (l' : list tensor) : list tensor :=
             match l, l' with
             | x :: t, y :: t' => tzip f x y :: go t t'
             | _, _ => []
             end) xs ys)
  | _, _ => TN []
  end.

(** [t.sum(0)]: the slices along axis 0 added elementwise.  A
    0-dimensional tensor has the single axis index 0 and is its own sum. *)
Definition sum0 (t : tensor) : tensor :=
  match t with
  | T0 x => T0 x
  | TN [] => T0 0
  | TN (u :: ts) => fold_left (tzip Rplus) ts u
  end.

(** [softmax(t, 0)]: every element is [exp] of itself divided by the sum,
    along axis 0, of the [exp]s at the same remaining index. *)
Definition softmax0 (t : tensor) : tensor :=
  match t with
  | T0 x => T0 (exp x / exp x)
  | TN ts =>
      let es := map (tmap exp) ts in
      let total := sum0 (TN es) in
      TN (map (fun e => tzip Rdiv e total) es)
  end.

(** Broadcasting arithmetic: shapes are aligned at their last axis, a
    missing leading axis or an axis of size 1 is repeated, anything else
    raises.  [fuel] bounds the number of axes still to be aligned. *)
Fixpoint broadcast_fuel (fuel : nat) (f : R -> R -> R) (a b : tensor)
  : result tensor :=
  match fuel with
  | O => Raise RuntimeError
  | S n =>
      match a, b with
      | T0 x, _ => Ok (tmap (f x) b)
      | _, T0 y => Ok (tmap (fun x => f x y) a)
      | TN xs, TN ys =>
          match Nat.compare (ndim a) (ndim b) with
          | Lt => fmap TN (mapM (broadcast_fuel n f a) ys)
          | Gt => fmap TN (mapM (fun x => broadcast_fuel n f x b) xs)
          | Eq =>
              if Nat.eqb (length xs) (length ys)
              then fmap TN (zipM (broadcast_fuel n f) xs ys)
              else match xs, ys with
                   | [x], _ => fmap TN (mapM (broadcast_fuel n f x) ys)
                   | _, [y] => fmap TN (mapM (fun x => broadcast_fuel n f x y) xs)
                   | _, _ => Raise RuntimeError
                   end
          end
      end
  end.

Definition broadcast (f : R -> R -> R) (a b : tensor) : result tensor :=
  broadcast_fuel (S (ndim a + ndim b)) f a b.

(** ** Python values and the operations the module applies to them *)

(** What a name of the module can hold: a plain Python number
    ([numbers.Number]) or a torch tensor. *)
Inductive value : Type :=
| Num (r : R)
| Ten (t : tensor).

(** [isinstance(v, Number)] *)
Definition is_number (v : value) : bool :=
  match v with
  | Num _ => true
  | Ten _ => false
  end.

(** [a + b], [a - b], [a * b]: numbers combine to a number, a number and
    a tensor to a tensor (the number applied to every element), two
    tensors by broadcasting. *)
Definition binop (f : R -> R -> R) (a b : value) : result value :=
  match a, b with
  | Num x, Num y => Ok (Num (f x y))
  | Num x, Ten u => Ok (Ten (tmap (f x) u))
  | Ten t, Num y => Ok (Ten (tmap (fun x => f x y) t))
  | Ten t, Ten u => fmap Ten (broadcast f t u)
  end.

Definition py_add : value -> value -> result value := binop Rplus.
Definition py_sub : value -> value -> result value := binop Rminus.
Definition py_mul : value -> value -> result value := binop Rmult.

(** [v.mean()]: a tensor method; a plain number has no such attribute. *)
Definition py_mean (v : value) : result value :=
  match v with
  | Num _ => Raise AttributeError
  | Ten t => Ok (Ten (T0 (tmean t)))
  end.

(** [v.sum(0)] *)
Definition py_sum0 (v : value) : result value :=
  match v with
  | Num _ => Raise AttributeError
  | Ten t => Ok (Ten (sum0 t))
  end.

(** [softmax(v, 0)] of [torch.nn.functional] *)
Definition softmax (v : value) : result value :=
  match v with
  | Num _ => Raise AttributeError
  | Ten t => Ok (Ten (softmax0 t))
  end.

(** The real number a result stands for, when it is a number or a
    0-dimensional tensor. *)
Definition item (v : value) : R :=
  match v with
  | Num r => r
  | Ten (T0 r) => r
  | Ten (TN _) => 0
  end.

(** ** Traces *)

(** Modelled from the spec: the [Trace] class is not part of this module;
    section 3 and the glossary give it as an ordered mapping from
    variable name to node, each node tagged sampled or conditioned and
    holding its log-density (a tensor or a scalar). *)
Record node : Type := mk_node {
  observed : bool;
  log_prob : value
}.

(** Modelled from the spec: a [Trace] object, its nodes in insertion
    order. *)
Definition trace : Type := list (string * node).

(** Modelled from the spec: [n in q], membership by name. *)
Definition contains (tr : trace) (n : string) : bool :=
  existsb (fun e => String.eqb (fst e) n) tr.

(** Modelled from the spec: [tr[n]], the first node stored under [n]. *)
Definition lookup (tr : trace) (n : string) : option node :=
  option_map snd (find (fun e => String.eqb (fst e) n) tr).

(** Modelled from the spec: [tr.conditioned()], the names of the
    conditioned nodes in trace order. *)
Definition conditioned (tr : trace) : list string :=
  map fst (filter (fun e => observed (snd e)) tr).

(** Modelled from the spec: [tr.sampled()], the names of the sampled
    nodes in trace order. *)
Definition sampled (tr : trace) : list string :=
  map fst (filter (fun e => negb (observed (snd e))) tr).

Module Util.

(** Modelled from the spec: the axis reduction behind [sum_log_prob]
    (section 4.1), the sum over every axis but axis [d]; the result keeps
    that one axis. *)
Fixpoint sum_except (d : nat) (t : tensor) : result tensor :=
  match t with
  | T0 _ => Raise IndexError
  | TN ts =>
      match d with
      | O => Ok (TN (map (fun u => T0 (tsum u)) ts))
      | S d' =>
          rs <- (fix go (l : list tensor) : result (list tensor) :=
                   match l with
                   | [] => Ok []
                   | u :: l' =>
                       r <- sum_except d' u ;; rs <- go l' ;; Ok (r :: rs)
                   end) ts ;;
          Ok (sum0 (TN rs))
      end
  end.

(** Modelled from the spec: section 4.1, the reduction of one node's
    log-density.  Without a sample axis everything is summed; with one,
    every other axis is summed and the sample axis is the only one
    left.  A scalar-valued node contributes its value.  Axes are
    counted from the front; an axis the tensor does not have raises. *)
Definition batch_sum (v : value) (sample_dim batch_dim : option Z)
  : result value :=
  match v with
  | Num r => Ok (Num r)
  | Ten t =>
      match sample_dim with
      | None => Ok (Ten (T0 (tsum t)))
      | Some d =>
          if (d <? 0)%Z then Raise IndexError
          else fmap Ten (sum_except (Z.to_nat d) t)
      end
  end.

(** Modelled from the spec: [sum_log_prob] of [probtorch.util] is not
    part of this module.  Section 4.1: starting from the number zero,
    add the reduced log-density of every listed name that the trace
    holds; names the trace lacks are skipped, so an empty list gives
    the plain number zero. *)
Fixpoint sum_log_prob_from (acc : value) (tr : trace)
         (sample_dim batch_dim : option Z) (nodes : list string)
  : result value :=
  match nodes with
  | [] => Ok acc
  | n :: rest =>
      match lookup tr n with
      | None => sum_log_prob_from acc tr sample_dim batch_dim rest
      | Some nd =>
          log_p <- batch_sum (log_prob nd) sample_dim batch_dim ;;
          acc' <- py_add acc log_p ;;
          sum_log_prob_from acc' tr sample_dim batch_dim rest
      end
  end.

(** Modelled from the spec: [sum_log_prob(trace, sample_dim, batch_dim,
    nodes)] of [probtorch.util], section 4.1. *)
Definition sum_log_prob (tr : trace) (sample_dim batch_dim : option Z)
           (nodes : list string) : result value :=
  sum_log_prob_from (Num 0) tr sample_dim batch_dim nodes.

End Util.

(** ** The estimators of [montecarlo.py] *)

Module Montecarlo.
Section Objectives.

(** [from probtorch.util import sum_log_prob]: the estimators are stated
    over any reduction with this signature. *)
Variable sum_log_prob :
  trace -> option Z -> option Z -> list string -> result value.

Definition log_like (q p : trace) (sample_dim batch_dim : option Z)
           (log_weights : option value) : result value :=
  let x := filter (fun n => negb (contains q n)) (conditioned p) in
  log_prob <- sum_log_prob p sample_dim batch_dim x ;;
  match sample_dim with
  | None => py_mean log_prob
  | Some _ =>
      log_weights <- match log_weights with
                     | None => sum_log_prob q sample_dim batch_dim
                                            (conditioned q)
                     | Some w => Ok w
                     end ;;
      if is_number log_weights then py_mean log_prob
      else
        weights <- softmax log_weights ;;
        wl <- py_mul weights log_prob ;;
        s <- py_sum0 wl ;;
        py_mean s
  end.

Definition kl (q p : trace) (sample_dim batch_dim : option Z)
           (log_weights : option value) : result value :=
  let z := sampled q in
  log_p <- sum_log_prob p sample_dim batch_dim z ;;
  log_q <- sum_log_prob q sample_dim batch_dim z ;;
  log_qp <- py_sub log_q log_p ;;
  match sample_dim with
  | None => py_mean log_qp
  | Some _ =>
      log_weights <- match log_weights with
                     | None => sum_log_prob q sample_dim batch_dim
                                            (conditioned q)
                     | Some w => Ok w
                     end ;;
      if is_number log_weights then py_mean log_qp
      else
        weights <- softmax log_weights ;;
        wl <- py_mul weights log_qp ;;
        s <- py_sum0 wl ;;
        py_mean s
  end.

Definition ml (q : trace) (sample_dim batch_dim : option Z) : result value :=
  log_q <- sum_log_prob q sample_dim batch_dim (conditioned q) ;;
  if is_number log_q then Ok log_q else py_mean log_q.

(** [alpha] and [beta] are Python floats.  The operands of
    [log_like(..) - beta * kl(..) + alpha * ml(..)] are evaluated from
    left to right, each product and the difference as soon as its
    operands are there. *)
Definition elbo (q p : trace) (sample_dim batch_dim : option Z)
           (alpha beta : R) : result value :=
  log_weights <- sum_log_prob q sample_dim batch_dim (conditioned q) ;;
  ll <- log_like q p sample_dim batch_dim (Some log_weights) ;;
  k <- kl q p sample_dim batch_dim (Some log_weights) ;;
  bk <- py_mul (Num beta) k ;;
  d <- py_sub ll bk ;;
  m <- ml q sample_dim batch_dim ;;
  am <- py_mul (Num alpha) m ;;
  py_add d am.

End Objectives.
End Montecarlo.

(** ** The same estimators over a store of trace objects

    In Python [q] and [p] are references to mutable trace objects.  Here
    the objects live in a [store], every access of the module to a trace
    is a store operation, and a computation returns the store it leaves
    behind, also when it raises. *)

Module Stateful.

Definition ref : Type := nat.
Definition store : Type := list trace.

Definition M (A : Type) : Type := store -> result A * store.

Definition ret {A : Type} (a : A) : M A := fun st => (Ok a, st).

(** A computation on values only: tensor arithmetic builds new values
    and touches no object of the store. *)
Definition lift {A : Type} (m : result A) : M A := fun st => (m, st).

Definition bindM {A B : Type} (m : M A) (k : A -> M B) : M B :=
  fun st =>
    match m st with
    | (Ok a, st') => k a st'
    | (Raise e, st') => (Raise e, st')
    end.

Notation "x <~ m ;; k" := (bindM m (fun x => k))
  (at level 61, m at next level, right associativity).

(** The trace object behind a reference. *)
Definition deref (st : store) (r : ref) : trace := nth r st [].

(** [tr[n] = nd] on the object behind [r]: the write a trace offers.
    None of the estimators calls it. *)
Definition setitem (r : ref) (n : string) (nd : node) : M unit :=
  fun st =>
    (Ok tt,
     firstn r st ++
       match skipn r st with
       | [] => []
       | tr :: rest =>
           (if contains tr n
            then map (fun e => if String.eqb (fst e) n then (n, nd) else e) tr
            else tr ++ [(n, nd)]) :: rest
       end).

(** Modelled from the spec: [r.conditioned()] on a trace object, a query
    that reads the object (sections 5 and 6). *)
Definition conditioned (r : ref) : M (list string) :=
  fun st => (Ok (conditioned (deref st r)), st).

(** Modelled from the spec: [r.sampled()] on a trace object. *)
Definition sampled (r : ref) : M (list string) :=
  fun st => (Ok (sampled (deref st r)), st).

(** Modelled from the spec: [n in r] on a trace object. *)
Definition contains (r : ref) (n : string) : M bool :=
  fun st => (Ok (contains (deref st r) n), st).

Fixpoint filterM {A : Type} (f : A -> M bool) (l : list A) : M (list A) :=
  match l with
  | [] => ret []
  | a :: l' =>
      b <~ f a ;;
      rest <~ filterM f l' ;;
      ret (if b then a :: rest else rest)
  end.

Section Objectives.

Variable sum_log_prob :
  ref -> option Z -> option Z -> list string -> M value.

Definition log_like (q p : ref) (sample_dim batch_dim : option Z)
           (log_weights : option value) : M value :=
  cp <~ conditioned p ;;
  x <~ filterM (fun n => b <~ contains q n ;; ret (negb b)) cp ;;
  log_prob <~ sum_log_prob p sample_dim batch_dim x ;;
  match sample_dim with
  | None => lift (py_mean log_prob)
  | Some _ =>
      log_weights <~ match log_weights with
                     | None =>
                         cq <~ conditioned q ;;
                         sum_log_prob q sample_dim batch_dim cq
                     | Some w => ret w
                     end ;;
      if is_number log_weights then lift (py_mean log_prob)
      else
        weights <~ lift (softmax log_weights) ;;
        wl <~ lift (py_mul weights log_prob) ;;
        s <~ lift (py_sum0 wl) ;;
        lift (py_mean s)
  end.

Definition kl (q p : ref) (sample_dim batch_dim : option Z)
           (log_weights : option value) : M value :=
  z <~ sampled q ;;
  log_p <~ sum_log_prob p sample_dim batch_dim z ;;
  log_q <~ sum_log_prob q sample_dim batch_dim z ;;
  log_qp <~ lift (py_sub log_q log_p) ;;
  match sample_dim with
  | None => lift (py_mean log_qp)
  | Some _ =>
      log_weights <~ match log_weights with
                     | None =>
                         cq <~ conditioned q ;;
                         sum_log_prob q sample_dim batch_dim cq
                     | Some w => ret w
                     end ;;
      if is_number log_weights then lift (py_mean log_qp)
      else
        weights <~ lift (softmax log_weights) ;;
        wl <~ lift (py_mul weights log_qp) ;;
        s <~ lift (py_sum0 wl) ;;
        lift (py_mean s)
  end.

Definition ml (q : ref) (sample_dim batch_dim : option Z) : M value :=
  cq <~ conditioned q ;;
  log_q <~ sum_log_prob q sample_dim batch_dim cq ;;
  if is_number log_q then ret log_q else lift (py_mean log_q).

Definition elbo (q p : ref) (sample_dim batch_dim : option Z)
           (alpha beta : R) : M value :=
  cq <~ conditioned q ;;
  log_weights <~ sum_log_prob q sample_dim batch_dim cq ;;
  ll <~ log_like q p sample_dim batch_dim (Some log_weights) ;;
  k <~ kl q p sample_dim batch_dim (Some log_weights) ;;
  bk <~ lift (py_mul (Num beta) k) ;;
  d <~ lift (py_sub ll bk) ;;
  m <~ ml q sample_dim batch_dim ;;
  am <~ lift (py_mul (Num alpha) m) ;;
  lift (py_add d am).

End Objectives.

(** Modelled from the spec: [sum_log_prob] on a trace object; section 5
    has the reduction read the trace it is given. *)
Definition sum_log_prob (r : ref) (sample_dim batch_dim : option Z)
           (nodes : list string) : M value :=
  fun st => (Util.sum_log_prob (deref st r) sample_dim batch_dim nodes, st).

End Stateful.

(** ** Specification-level readings of the estimators *)

Import Montecarlo.

(** The importance-weighted estimate of section 4.3: softmax of the
    log-weights along the sample axis, sum over that axis of
    [weights * v], mean of what is left. *)
Definition weighted_mean (w : tensor) (v : value) : result value :=
  wl <- py_mul (Ten (softmax0 w)) v ;;
  s <- py_sum0 wl ;;
  py_mean s.

(** The set [x] of section 4.3: the names conditioned in [p] under which
    [q] holds no node at all. *)
Definition decoder_only (q p : trace) : list string :=
  filter (fun n => negb (contains q n)) (conditioned p).

(** Sum of a list of reals. *)
Definition rsum (l : list R) : R := fold_right Rplus 0 l.

(** The element of [t] at the multi-index [idx] (0 where [t] has none). *)
Definition elem (t : tensor) (idx : list nat) : R :=
  match tget idx t with
  | Some x => x
  | None => 0
  end.

(** The elements of [t] along axis 0 at the remaining index [idx]: one
    per sample. *)
Definition col (t : tensor) (idx : list nat) : list R :=
  match t with
  | T0 _ => []
  | TN ts => map (fun u => elem u idx) ts
  end.

(** Softmax of a list of log-weights: each [exp a] over the sum of all
    [exp]s. *)
Definition softmax_list (l : list R) : list R :=
  map (fun a => exp a / rsum (map exp l)) l.

(** Two lists combined position by position. *)
Definition elemwise (f : R -> R -> R) (l l' : list R) : list R :=
  map (fun ab => f (fst ab) (snd ab)) (combine l l').

(** Every multi-index of a tensor of shape [sh]. *)
Fixpoint indices (sh : list nat) : list (list nat) :=
  match sh with
  | [] => [[]]
  | n :: sh' => flat_map (fun i => map (cons i) (indices sh')) (seq 0 n)
  end.

(** The mean of [f] over every index of shape [sh]: the average over the
    batch axis and any remaining axes. *)
Definition batch_mean (sh : list nat) (f : list nat -> R) : R :=
  rsum (map f (indices sh)) / INR (length (indices sh)).

(** The importance-weighted estimate of sections 4.2 and 4.3, element by
    element: at every remaining index the log-weights of the samples are
    normalised by softmax, the values [c idx] of the samples are summed
    with these weights, and the sums are averaged over the remaining
    indices. *)
Definition importance_estimate (w : tensor) (rest : list nat)
           (c : list nat -> list R) : R :=
  batch_mean rest
    (fun idx => rsum (elemwise Rmult (softmax_list (col w idx)) (c idx))).

Section Readings.

Variable sum_log_prob :
  trace -> option Z -> option Z -> list string -> result value.

(** The default source of log-weights: the reduction of [q]'s
    conditioned-variable log-density. *)
Definition default_log_weights (q : trace) (sample_dim batch_dim : option Z)
  : result value :=
  sum_log_prob q sample_dim batch_dim (conditioned q).

(** The branch structure of sections 4.3 and 4.4 applied to a reduced
    log-density [v]. *)
Definition estimate (q : trace) (sample_dim batch_dim : option Z)
           (log_weights : option value) (v : value) : result value :=
  match sample_dim with
  | None => py_mean v
  | Some _ =>
      w <- match log_weights with
           | Some w => Ok w
           | None => default_log_weights q sample_dim batch_dim
           end ;;
      match w with
      | Num _ => py_mean v
      | Ten t => weighted_mean t v
      end
  end.

(** The degenerate-weights condition of section 7. *)
Definition degenerate (q : trace) (sample_dim batch_dim : option Z)
           (log_weights : option value) : Prop :=
  sample_dim = None \/
  exists r, match log_weights with
            | Some w => Ok w
            | None => default_log_weights q sample_dim batch_dim
            end = Ok (Num r).

End Readings.

(** A computation of the store model that leaves every object of the
    store as it found it. *)
Definition reads_only {A : Type} (m : Stateful.M A) : Prop :=
  forall st, snd (m st) = st.

(** ** Traces used in the examples *)

Open Scope string_scope.

(** Scenario A of section 8: no sample axis, every log-density a
    0-dimensional tensor. *)
Definition q_A : trace :=
  [("z", mk_node false (Ten (T0 2))); ("y", mk_node true (Ten (T0 1)))].

Definition p_A : trace :=
  [("x", mk_node true (Ten (T0 3))); ("z", mk_node false (Ten (T0 (-1))))].

(** Two samples along axis 0: a latent [z], a label [y] observed in the
    encoder and an observation [x] of the decoder. *)
Definition q_S : trace :=
  [("z", mk_node false (Ten (TN [T0 2; T0 4])));
   ("y", mk_node true (Ten (TN [T0 0; T0 1])))].

Definition p_S : trace :=
  [("x", mk_node true (Ten (TN [T0 5; T0 7])));
   ("z", mk_node false (Ten (TN [T0 1; T0 3])))].

(** The reduction of [q_S]'s conditioned log-density along sample axis 0. *)
Definition w_S : tensor := TN [T0 (0 + 0); T0 (0 + 1)].

(** An encoder with two samples of [z] against a decoder with three. *)
Definition q_2 : trace := [("z", mk_node false (Ten (TN [T0 1; T0 2])))].

Definition p_3 : trace :=
  [("z", mk_node false (Ten (TN [T0 1; T0 2; T0 3])))].

(** An encoder that holds only the observed label [y]. *)
Definition q_y : trace := [("y", mk_node true (Ten (T0 1)))].

(** An encoder that holds only the latent [z]. *)
Definition q_z : trace := [("z", mk_node false (Ten (T0 2)))].

(** Log-weights of two samples and two batch items. *)
Definition w_22 : tensor := TN [TN [T0 0; T0 1]; TN [T0 2; T0 3]].

Close Scope string_scope.

(** ** Facts about values *)

Definition is_scalar_tensor (v : value) : Prop := exists r, v = Ten (T0 r).

Lemma py_mean_scalar (v w : value) :
  py_mean v = Ok w -> is_scalar_tensor w.
Proof.
  destruct v as [r|t]; simpl; intros H; [discriminate|].
  injection H as <-. now exists (tmean t).
Qed.

Lemma broadcast_scalars (f : R -> R -> R) (a b : R) :
  broadcast f (T0 a) (T0 b) = Ok (T0 (f a b)).
Proof. reflexivity. Qed.

Lemma binop_scalar_tensors (f : R -> R -> R) (a b : R) :
  binop f (Ten (T0 a)) (Ten (T0 b)) = Ok (Ten (T0 (f a b))).
Proof. reflexivity. Qed.

Lemma bind_ok {A B : Type} (m : result A) (k : A -> result B) (b : B) :
  bind m k = Ok b -> exists a, m = Ok a /\ k a = Ok b.
Proof. destruct m as [a|e]; simpl; intros H; [eauto | discriminate]. Qed.

Ltac bind_inv H :=
  let a := fresh "a" in
  let Ha := fresh "Ha" in
  apply bind_ok in H; destruct H as (a & Ha & H).

Section EstimatorFacts.

Variable sum_log_prob :
  trace -> option Z -> option Z -> list string -> result value.

Lemma estimate_scalar q sd bd lw v w :
  estimate sum_log_prob q sd bd lw v = Ok w -> is_scalar_tensor w.
Proof.
  unfold estimate, weighted_mean. destruct sd as [d|].
  - intros H. bind_inv H. destruct a as [r|t].
    + eapply py_mean_scalar; eauto.
    + bind_inv H. bind_inv H. eapply py_mean_scalar; eauto.
  - apply py_mean_scalar.
Qed.

Lemma log_like_estimate q p sd bd lw :
  log_like sum_log_prob q p sd bd lw =
  (log_prob <- sum_log_prob p sd bd (decoder_only q p) ;;
   estimate sum_log_prob q sd bd lw log_prob).
Proof.
  unfold log_like, estimate, default_log_weights, weighted_mean, decoder_only.
  destruct (sum_log_prob p sd bd _) as [lp|e]; simpl; [|reflexivity].
  destruct sd as [d|]; [|reflexivity].
  destruct lw as [[r|t]|]; simpl; try reflexivity.
  destruct (sum_log_prob q (Some d) bd (conditioned q)) as [[r|t]|e];
    reflexivity.
Qed.

Lemma kl_estimate q p sd bd lw :
  kl sum_log_prob q p sd bd lw =
  (log_p <- sum_log_prob p sd bd (sampled q) ;;
   log_q <- sum_log_prob q sd bd (sampled q) ;;
   log_qp <- py_sub log_q log_p ;;
   estimate sum_log_prob q sd bd lw log_qp).
Proof.
  unfold kl, estimate, default_log_weights, weighted_mean.
  destruct (sum_log_prob p sd bd _) as [lp|e]; simpl; [|reflexivity].
  destruct (sum_log_prob q sd bd (sampled q)) as [lq|e]; simpl; [|reflexivity].
  destruct (py_sub lq lp) as [lqp|e]; simpl; [|reflexivity].
  destruct sd as [d|]; [|reflexivity].
  destruct lw as [[r|t]|]; simpl; try reflexivity.
  destruct (sum_log_prob q (Some d) bd (conditioned q)) as [[r|t]|e];
    reflexivity.
Qed.

Lemma log_like_scalar q p sd bd lw w :
  log_like sum_log_prob q p sd bd lw = Ok w -> is_scalar_tensor w.
Proof.
  rewrite log_like_estimate. intros H. bind_inv H.
  eapply estimate_scalar; eauto.
Qed.

Lemma kl_scalar q p sd bd lw w :
  kl sum_log_prob q p sd bd lw = Ok w -> is_scalar_tensor w.
Proof.
  rewrite kl_estimate. intros H. do 3 bind_inv H.
  eapply estimate_scalar; eauto.
Qed.

Lemma ml_scalar q sd bd w :
  ml sum_log_prob q sd bd = Ok w ->
  (exists r, w = Num r) \/ is_scalar_tensor w.
Proof.
  unfold ml. intros H. bind_inv H. destruct a as [r|t]; simpl in H.
  - injection H as <-. left. now exists r.
  - injection H as <-. right. now exists (tmean t).
Qed.

(** C1. [elbo] reduces [q]'s conditioned-variable log-density once, to
    [w], hands that one [w] to both [log_like] and [kl], and returns
    [log_like - beta * kl + alpha * ml]; an exception of a sub-term is
    the exception of [elbo]. *)
Theorem elbo_decomposition q p sd bd alpha beta :
  elbo sum_log_prob q p sd bd alpha beta =
  (w <- sum_log_prob q sd bd (conditioned q) ;;
   l <- log_like sum_log_prob q p sd bd (Some w) ;;
   k <- kl sum_log_prob q p sd bd (Some w) ;;
   m <- ml sum_log_prob q sd bd ;;
   Ok (Ten (T0 (item l - beta * item k + alpha * item m)))).
Proof.
  unfold elbo.
  destruct (sum_log_prob q sd bd (conditioned q)) as [w|e] eqn:Hw;
    simpl; [|reflexivity].
  destruct (log_like sum_log_prob q p sd bd (Some w)) as [l|e] eqn:Hl;
    simpl; [|reflexivity].
  destruct (kl sum_log_prob q p sd bd (Some w)) as [k|e] eqn:Hk;
    simpl; [|reflexivity].
  apply log_like_scalar in Hl as [a ->].
  apply kl_scalar in Hk as [b ->].
  simpl.
  destruct (ml sum_log_prob q sd bd) as [m|e] eqn:Hm; simpl; [|reflexivity].
  apply ml_scalar in Hm as [[c ->]|[c ->]]; reflexivity.
Qed.

Lemma contains_spec (tr : trace) (n : string) :
  contains tr n = true <-> exists nd, In (n, nd) tr.
Proof.
  unfold contains. rewrite existsb_exists. split.
  - intros ([m nd] & Hin & Heq). simpl in Heq.
    apply String.eqb_eq in Heq. subst m. now exists nd.
  - intros (nd & Hin). exists (n, nd). split; [assumption|].
    simpl. apply String.eqb_refl.
Qed.

Lemma decoder_only_spec (q p : trace) (n : string) :
  In n (decoder_only q p) <->
  In n (conditioned p) /\ forall nd, ~ In (n, nd) q.
Proof.
  unfold decoder_only. rewrite filter_In, negb_true_iff. split.
  - intros (Hc & Hq). split; [assumption|]. intros nd Hin.
    assert (contains q n = true) by (apply contains_spec; eauto).
    congruence.
  - intros (Hc & Hq). split; [assumption|].
    destruct (contains q n) eqn:E; [|reflexivity].
    apply contains_spec in E as (nd & Hin). now elim (Hq nd).
Qed.

Lemma conditioned_spec (tr : trace) (n : string) :
  In n (conditioned tr) <-> exists nd, In (n, nd) tr /\ observed nd = true.
Proof.
  unfold conditioned. rewrite in_map_iff. split.
  - intros ([m nd] & Heq & Hin). simpl in Heq. subst m.
    apply filter_In in Hin as (Hin & Ho). now exists nd.
  - intros (nd & Hin & Ho). exists (n, nd). split; [reflexivity|].
    apply filter_In. now split.
Qed.

Lemma sampled_spec (tr : trace) (n : string) :
  In n (sampled tr) <-> exists nd, In (n, nd) tr /\ observed nd = false.
Proof.
  unfold sampled. rewrite in_map_iff. split.
  - intros ([m nd] & Heq & Hin). simpl in Heq. subst m.
    apply filter_In in Hin as (Hin & Ho). simpl in Ho.
    apply negb_true_iff in Ho. now exists nd.
  - intros (nd & Hin & Ho). exists (n, nd). split; [reflexivity|].
    apply filter_In. split; [assumption|]. simpl. now rewrite Ho.
Qed.

(** C4. [ml] returns the mean over all remaining axes of the reduction
    of [q]'s conditioned-variable log-density, the quantity that serves
    as log-weights elsewhere, and returns that reduction as it is when
    it is a plain number. *)
Theorem ml_mean_of_log_weights q sd bd :
  ml sum_log_prob q sd bd =
  (log_q <- default_log_weights sum_log_prob q sd bd ;;
   match log_q with
   | Num r => Ok (Num r)
   | Ten t => Ok (Ten (T0 (tsum t / INR (numel t))))
   end).
Proof.
  unfold ml, default_log_weights.
  destruct (sum_log_prob q sd bd (conditioned q)) as [[r|t]|e]; reflexivity.
Qed.

Lemma log_like_no_sample_dim q p bd lw :
  log_like sum_log_prob q p None bd lw =
  (log_prob <- sum_log_prob p None bd (decoder_only q p) ;; py_mean log_prob).
Proof. now rewrite log_like_estimate. Qed.

Lemma kl_no_sample_dim q p bd lw :
  kl sum_log_prob q p None bd lw =
  (log_p <- sum_log_prob p None bd (sampled q) ;;
   log_q <- sum_log_prob q None bd (sampled q) ;;
   log_qp <- py_sub log_q log_p ;;
   py_mean log_qp).
Proof. now rewrite kl_estimate. Qed.

(** C6. Handing [log_like] or [kl] the reduction of [q]'s
    conditioned-variable log-density as [log_weights] gives what the
    call without [log_weights] gives. *)
Theorem precomputed_log_weights_agree q p sd bd w :
  default_log_weights sum_log_prob q sd bd = Ok w ->
  log_like sum_log_prob q p sd bd (Some w) =
    log_like sum_log_prob q p sd bd None
  /\ kl sum_log_prob q p sd bd (Some w) = kl sum_log_prob q p sd bd None.
Proof.
  intros Hw. rewrite !log_like_estimate, !kl_estimate.
  unfold estimate. rewrite Hw. now split.
Qed.

Lemma estimate_degenerate q sd bd lw v :
  degenerate sum_log_prob q sd bd lw ->
  estimate sum_log_prob q sd bd lw v = py_mean v.
Proof.
  unfold estimate. intros [->|[r Hr]]; [reflexivity|].
  destruct sd as [d|]; [|reflexivity]. now rewrite Hr.
Qed.

(** Under the degenerate-weights condition [log_like] and [kl] are
    [.mean()] of their reduction: the weights raise nothing, an exception
    of a reduction is passed on, and the call returns the mean whenever
    its reduction is a tensor. *)
Theorem degenerate_weights_fallback q p sd bd lw :
  degenerate sum_log_prob q sd bd lw ->
  log_like sum_log_prob q p sd bd lw =
    (log_prob <- sum_log_prob p sd bd (decoder_only q p) ;;
     py_mean log_prob)
  /\ kl sum_log_prob q p sd bd lw =
    (log_p <- sum_log_prob p sd bd (sampled q) ;;
     log_q <- sum_log_prob q sd bd (sampled q) ;;
     log_qp <- py_sub log_q log_p ;;
     py_mean log_qp)
  /\ (forall t,
        sum_log_prob p sd bd (decoder_only q p) = Ok (Ten t) ->
        log_like sum_log_prob q p sd bd lw = Ok (Ten (T0 (tmean t))))
  /\ (forall log_p log_q t,
        sum_log_prob p sd bd (sampled q) = Ok log_p ->
        sum_log_prob q sd bd (sampled q) = Ok log_q ->
        py_sub log_q log_p = Ok (Ten t) ->
        kl sum_log_prob q p sd bd lw = Ok (Ten (T0 (tmean t)))).
Proof.
  intros Hd. rewrite log_like_estimate, kl_estimate.
  repeat split.
  - destruct (sum_log_prob p sd bd (decoder_only q p)); simpl;
      [now apply estimate_degenerate | reflexivity].
  - destruct (sum_log_prob p sd bd (sampled q)); simpl; [|reflexivity].
    destruct (sum_log_prob q sd bd (sampled q)); simpl; [|reflexivity].
    destruct (py_sub _ _); simpl;
      [now apply estimate_degenerate | reflexivity].
  - intros t Ht. rewrite Ht. simpl. now rewrite estimate_degenerate.
  - intros lp lq t Hp Hq Hs. rewrite Hp, Hq. simpl. rewrite Hs. simpl.
    now rewrite estimate_degenerate.
Qed.

Lemma number_has_no_mean q sd bd lw r :
  degenerate sum_log_prob q sd bd lw ->
  estimate sum_log_prob q sd bd lw (Num r) = Raise AttributeError.
Proof. intros Hd. now rewrite estimate_degenerate. Qed.

End EstimatorFacts.

(** ** Softmax along the sample axis *)

Section TensorFacts.

Lemma tget_tmap (f : R -> R) (t : tensor) :
  forall idx, tget idx (tmap f t) = option_map f (tget idx t).
Proof.
  induction t as [x|ts IH] using tensor_nested_ind; intros idx.
  - destruct idx; reflexivity.
  - destruct idx as [|i idx]; [reflexivity|]. simpl.
    rewrite nth_error_map.
    destruct (nth_error ts i) as [u|] eqn:E; simpl; [|reflexivity].
    rewrite Forall_forall in IH. apply IH. eapply nth_error_In; eauto.
Qed.

Lemma lift2_none_r (f : R -> R -> R) (a : option R) : lift2 f a None = None.
Proof. now destruct a. Qed.

Lemma tget_nil_slices (idx : list nat) : tget idx (TN []) = None.
Proof. destruct idx as [|[|i] idx]; reflexivity. Qed.

Lemma tget_tzip (f : R -> R -> R) (a : tensor) :
  forall b idx,
    tget idx (tzip f a b) = lift2 f (tget idx a) (tget idx b).
Proof.
  induction a as [x|xs IH] using tensor_nested_ind; intros b idx.
  - destruct b as [y|ys].
    + destruct idx; reflexivity.
    + change (tzip f (T0 x) (TN ys)) with (TN []).
      rewrite tget_nil_slices. destruct idx; [|reflexivity].
      apply eq_sym, lift2_none_r.
  - destruct b as [y|ys].
    + change (tzip f (TN xs) (T0 y)) with (TN []).
      rewrite tget_nil_slices. destruct idx as [|i idx]; [reflexivity|].
      apply eq_sym, lift2_none_r.
    + destruct idx as [|i idx]; [reflexivity|]. simpl.
      revert ys i. induction IH as [|x xs Hx _ IHxs]; intros ys i.
      * destruct i; reflexivity.
      * destruct ys as [|y ys].
        -- replace (nth_error (@nil tensor) i) with (@None tensor)
             by now destruct i.
           rewrite lift2_none_r. now destruct i.
        -- destruct i; simpl; [apply Hx | apply IHxs].
Qed.

Lemma tget_fold_tzip (f : R -> R -> R) (idx : list nat) (l : list tensor) :
  forall u,
    tget idx (fold_left (tzip f) l u) =
    fold_left (lift2 f) (map (tget idx) l) (tget idx u).
Proof.
  induction l as [|t l IH]; intros u; simpl; [reflexivity|].
  now rewrite IH, tget_tzip.
Qed.

Lemma shape_has_shape (t : tensor) :
  forall sh, shape t = Some sh -> has_shape sh t.
Proof.
  induction t as [x|ts IH] using tensor_nested_ind; intros sh Hsh.
  - injection Hsh as <-. now exists x.
  - destruct ts as [|u ts]; simpl in Hsh.
    + injection Hsh as <-. exists []. repeat split. constructor.
    + destruct (shape u) as [sh'|] eqn:Hu; [|discriminate].
      destruct (forallb _ ts) eqn:Hall; [|discriminate].
      injection Hsh as <-. exists (u :: ts). repeat split.
      inversion IH as [|? ? IHu IHts]; subst. constructor; [now apply IHu|].
      rewrite forallb_forall in Hall. rewrite Forall_forall in IHts |- *.
      intros v Hv. apply IHts; [assumption|].
      specialize (Hall v Hv). unfold shape_eqb in Hall.
      destruct (shape v) as [sv|]; [|discriminate].
      destruct (list_eq_dec Nat.eq_dec sv sh'); [now subst | discriminate].
Qed.

Lemma has_shape_tget (sh : list nat) :
  forall t idx, has_shape sh t -> in_bounds idx sh ->
                exists v, tget idx t = Some v.
Proof.
  induction sh as [|n sh IH]; intros t idx Ht Hidx.
  - destruct Ht as [x ->]. inversion Hidx; subst. now exists x.
  - destruct Ht as (ts & -> & Hlen & Hall).
    inversion Hidx as [|i ? idx' ? Hi Hidx']; subst. simpl.
    destruct (nth_error ts i) as [u|] eqn:E.
    + apply IH; [|assumption]. rewrite Forall_forall in Hall.
      apply Hall. eapply nth_error_In; eauto.
    + apply nth_error_None in E. lia.
Qed.

Lemma fold_lift2_some (f : R -> R -> R) (xs : list R) :
  forall x,
    fold_left (lift2 f) (map Some xs) (Some x) = Some (fold_left f xs x).
Proof. induction xs as [|y xs IH]; intros x; simpl; [reflexivity|apply IH]. Qed.

Lemma fold_plus_div (T : R) (xs : list R) :
  forall y,
    fold_left Rplus (map (fun x => x / T) xs) (y / T) =
    fold_left Rplus xs y / T.
Proof.
  induction xs as [|x xs IH]; intros y; simpl; [reflexivity|].
  rewrite <- IH. f_equal. unfold Rdiv. ring.
Qed.

Lemma fold_plus_pos (xs : list R) :
  forall y, 0 < y -> Forall (fun x => 0 < x) xs -> 0 < fold_left Rplus xs y.
Proof.
  induction xs as [|x xs IH]; intros y Hy Hxs; simpl; [assumption|].
  inversion Hxs; subst. apply IH; [lra | assumption].
Qed.

(** The elements of the slices at one remaining index. *)
Lemma column_defined (sh idx : list nat) (ts : list tensor) :
  Forall (has_shape sh) ts -> in_bounds idx sh ->
  exists col, map (tget idx) ts = map Some col.
Proof.
  intros Hall Hidx. induction Hall as [|t ts Ht _ IH].
  - now exists [].
  - destruct IH as [col Hcol].
    destruct (has_shape_tget sh t idx Ht Hidx) as [v Hv].
    exists (v :: col). simpl. now rewrite Hv, Hcol.
Qed.

Lemma map_compose_some (g : R -> R) (l : list tensor) (idx : list nat)
      (col : list R) :
  map (tget idx) l = map Some col ->
  map (tget idx) (map (tmap g) l) = map Some (map g col).
Proof.
  revert col. induction l as [|t l IH]; intros [|c col] H; simpl in *;
    try discriminate; [reflexivity|].
  injection H as Ht Hl. rewrite tget_tmap, Ht. simpl. f_equal. now apply IH.
Qed.

Lemma map_div_some (tot : tensor) (T : R) (l : list tensor)
      (idx : list nat) (col : list R) :
  tget idx tot = Some T ->
  map (tget idx) l = map Some col ->
  map (tget idx) (map (fun e => tzip Rdiv e tot) l) =
  map Some (map (fun x => x / T) col).
Proof.
  intros HT. revert col.
  induction l as [|t l IH]; intros [|c col] H; simpl in *;
    try discriminate; [reflexivity|].
  injection H as Ht Hl. rewrite tget_tzip, Ht, HT. simpl. f_equal.
  now apply IH.
Qed.

End TensorFacts.

(** ** Empty name sets *)

Lemma sum_log_prob_no_names (tr : trace) (sd bd : option Z) :
  Util.sum_log_prob tr sd bd [] = Ok (Num 0).
Proof. reflexivity. Qed.

(** C9. Without a sample axis, [log_like] with no name conditioned only
    in the decoder and [kl] with no sampled name in [q] call [.mean()] on
    the plain number zero and raise; [ml] with no conditioned name in [q]
    returns that number. *)
Theorem empty_name_set_mean_raises (q p : trace) (bd : option Z)
        (lw : option value) :
  (decoder_only q p = [] ->
   log_like Util.sum_log_prob q p None bd lw = Raise AttributeError)
  /\ (sampled q = [] ->
      kl Util.sum_log_prob q p None bd lw = Raise AttributeError)
  /\ (conditioned q = [] ->
      forall sd, ml Util.sum_log_prob q sd bd = Ok (Num 0)).
Proof.
  repeat split.
  - intros Hx. rewrite log_like_no_sample_dim, Hx. reflexivity.
  - intros Hz. rewrite kl_no_sample_dim, Hz. reflexivity.
  - intros Hy sd. unfold ml. rewrite Hy. reflexivity.
Qed.

(** ** The scenarios of section 8 *)

Example scenario_A_log_like :
  log_like Util.sum_log_prob q_A p_A None None None = Ok (Ten (T0 3)).
Proof. cbn. unfold tmean. cbn. do 3 f_equal. field. Qed.

Example scenario_A_kl :
  kl Util.sum_log_prob q_A p_A None None None = Ok (Ten (T0 3)).
Proof. cbn. unfold tmean. cbn. do 3 f_equal. field. Qed.

Example scenario_A_ml :
  ml Util.sum_log_prob q_A None None = Ok (Ten (T0 1)).
Proof. cbn. unfold tmean. cbn. do 3 f_equal. field. Qed.

Example scenario_A_elbo :
  elbo Util.sum_log_prob q_A p_A None None (1 / 10) 1 =
  Ok (Ten (T0 (1 / 10))).
Proof. cbn. unfold tmean. cbn. do 3 f_equal. field. Qed.

Example scenario_B_uniform_weights (lp0 lp1 : R) :
  weighted_mean (TN [T0 0; T0 0]) (Ten (TN [T0 lp0; T0 lp1])) =
  Ok (Ten (T0 ((lp0 + lp1) / 2))).
Proof.
  cbn. unfold tmean. cbn. do 3 f_equal. rewrite exp_0. field.
Qed.

Example scenario_C_informative_weights (lp0 lp1 : R) :
  weighted_mean (TN [T0 0; T0 (ln 3)]) (Ten (TN [T0 lp0; T0 lp1])) =
  Ok (Ten (T0 (1 / 4 * lp0 + 3 / 4 * lp1))).
Proof.
  cbn. unfold tmean. cbn. do 3 f_equal.
  rewrite exp_0, exp_ln by lra. field.
Qed.

(** ** Instances on concrete traces *)

Lemma precomputed_log_weights_agree_witness :
  default_log_weights Util.sum_log_prob q_S (Some 0%Z) None = Ok (Ten w_S)
  /\ log_like Util.sum_log_prob q_S p_S (Some 0%Z) None (Some (Ten w_S)) =
     log_like Util.sum_log_prob q_S p_S (Some 0%Z) None None
  /\ kl Util.sum_log_prob q_S p_S (Some 0%Z) None (Some (Ten w_S)) =
     kl Util.sum_log_prob q_S p_S (Some 0%Z) None None.
Proof.
  split; [reflexivity|].
  apply (precomputed_log_weights_agree
           Util.sum_log_prob q_S p_S (Some 0%Z) None (Ten w_S)).
  reflexivity.
Defined.

Lemma degenerate_weights_fallback_witness :
  degenerate Util.sum_log_prob q_S (Some 0%Z) None (Some (Num 0))
  /\ kl Util.sum_log_prob q_S p_S (Some 0%Z) None (Some (Num 0)) =
     (log_p <- Util.sum_log_prob p_S (Some 0%Z) None (sampled q_S) ;;
      log_q <- Util.sum_log_prob q_S (Some 0%Z) None (sampled q_S) ;;
      log_qp <- py_sub log_q log_p ;;
      py_mean log_qp).
Proof.
  assert (Hd : degenerate Util.sum_log_prob q_S (Some 0%Z) None (Some (Num 0)))
    by (right; exists 0; reflexivity).
  split; [exact Hd|].
  apply (degenerate_weights_fallback
           Util.sum_log_prob q_S p_S (Some 0%Z) None (Some (Num 0)) Hd).
Defined.

Lemma empty_name_set_mean_raises_witness :
  decoder_only [] [] = []
  /\ log_like Util.sum_log_prob [] [] None None None = Raise AttributeError.
Proof.
  split; [reflexivity|].
  apply (empty_name_set_mean_raises [] [] None None). reflexivity.
Defined.

Example kl_mismatched_samples :
  kl Util.sum_log_prob q_2 p_3 (Some 0%Z) None (Some (Num 0)) =
  Raise RuntimeError.
Proof. reflexivity. Qed.

(** ** The estimators only read the store *)

Section Frame.

Import Stateful.

Lemma reads_only_ret {A : Type} (a : A) : reads_only (ret a).
Proof. intros st. reflexivity. Qed.

Lemma reads_only_lift {A : Type} (m : result A) : reads_only (lift m).
Proof. intros st. reflexivity. Qed.

Lemma reads_only_bind {A B : Type} (m : M A) (k : A -> M B) :
  reads_only m -> (forall a, reads_only (k a)) -> reads_only (bindM m k).
Proof.
  intros Hm Hk st. unfold bindM. specialize (Hm st).
  destruct (m st) as [[a|e] st']; simpl in Hm; subst st'.
  - apply Hk.
  - reflexivity.
Qed.

Lemma reads_only_conditioned (r : ref) : reads_only (Stateful.conditioned r).
Proof. intros st. reflexivity. Qed.

Lemma reads_only_sampled (r : ref) : reads_only (Stateful.sampled r).
Proof. intros st. reflexivity. Qed.

Lemma reads_only_contains (r : ref) (n : string) :
  reads_only (Stateful.contains r n).
Proof. intros st. reflexivity. Qed.

Lemma reads_only_filterM {A : Type} (f : A -> M bool) (l : list A) :
  (forall a, reads_only (f a)) -> reads_only (filterM f l).
Proof.
  intros Hf. induction l as [|a l IH]; simpl.
  - apply reads_only_ret.
  - apply reads_only_bind; [apply Hf|]. intros b.
    apply reads_only_bind; [apply IH|]. intros rest. apply reads_only_ret.
Qed.

(** The write a trace offers is visible in the store. *)
Example setitem_writes :
  snd (setitem 0%nat "y"%string (mk_node true (Num 0)) [q_A]) <> [q_A].
Proof. cbn. discriminate. Qed.

Variable sum_log_prob : ref -> option Z -> option Z -> list string -> M value.

Hypothesis sum_log_prob_reads :
  forall r sd bd nodes, reads_only (sum_log_prob r sd bd nodes).

Ltac frame :=
  repeat first
    [ apply reads_only_ret
    | apply reads_only_lift
    | apply reads_only_conditioned
    | apply reads_only_sampled
    | apply reads_only_contains
    | apply sum_log_prob_reads
    | apply reads_only_filterM; intros
    | apply reads_only_bind; [|intros]
    | match goal with
      | |- reads_only (match ?x with _ => _ end) => destruct x
      end ].

Lemma reads_only_log_like q p sd bd lw :
  reads_only (Stateful.log_like sum_log_prob q p sd bd lw).
Proof. unfold Stateful.log_like. frame. Qed.

Lemma reads_only_kl q p sd bd lw :
  reads_only (Stateful.kl sum_log_prob q p sd bd lw).
Proof. unfold Stateful.kl. frame. Qed.

Lemma reads_only_ml q sd bd : reads_only (Stateful.ml sum_log_prob q sd bd).
Proof. unfold Stateful.ml. frame. Qed.

Lemma reads_only_elbo q p sd bd alpha beta :
  reads_only (Stateful.elbo sum_log_prob q p sd bd alpha beta).
Proof.
  unfold Stateful.elbo.
  repeat first
    [ apply reads_only_log_like | apply reads_only_kl | apply reads_only_ml
    | apply reads_only_conditioned | apply sum_log_prob_reads
    | apply reads_only_lift
    | apply reads_only_bind; [|intros] ].
Qed.

(** C10. When the reduction only reads the trace it is given, every
    estimator leaves the store of trace objects as it found it, whether
    it returns or raises: no node of [q] or [p] is written, and what
    the estimators compute lives outside the store. *)
Theorem estimators_leave_traces_unchanged q p sd bd lw alpha beta st :
  snd (Stateful.elbo sum_log_prob q p sd bd alpha beta st) = st
  /\ snd (Stateful.log_like sum_log_prob q p sd bd lw st) = st
  /\ snd (Stateful.kl sum_log_prob q p sd bd lw st) = st
  /\ snd (Stateful.ml sum_log_prob q sd bd st) = st.
Proof.
  repeat split.
  - apply reads_only_elbo.
  - apply reads_only_log_like.
  - apply reads_only_kl.
  - apply reads_only_ml.
Qed.

End Frame.

Lemma util_sum_log_prob_reads r sd bd nodes :
  reads_only (Stateful.sum_log_prob r sd bd nodes).
Proof. intros st. reflexivity. Qed.

Lemma estimators_leave_traces_unchanged_witness :
  snd (Stateful.elbo Stateful.sum_log_prob 0%nat 1%nat None None (1 / 10) 1
         [q_A; p_A]) = [q_A; p_A].
Proof.
  apply (estimators_leave_traces_unchanged
           Stateful.sum_log_prob util_sum_log_prob_reads
           0%nat 1%nat None None None (1 / 10) 1 [q_A; p_A]).
Defined.

(** ** The store model computes what the value model computes *)

Lemma stateful_filter_absent (q : Stateful.ref) (l : list string)
      (st : Stateful.store) :
  Stateful.filterM
    (fun n => Stateful.bindM (Stateful.contains q n)
                             (fun b => Stateful.ret (negb b))) l st =
  (Ok (filter (fun n => negb (contains (Stateful.deref st q) n)) l), st).
Proof.
  induction l as [|n l IH]; [reflexivity|].
  cbn [Stateful.filterM filter]. unfold Stateful.bindM at 1 2. cbn.
  unfold Stateful.bindM at 1. rewrite IH. cbn.
  now destruct (contains (Stateful.deref st q) n).
Qed.

Lemma bindM_pure {A B : Type} (m : Stateful.M A) (k : A -> Stateful.M B)
      (st : Stateful.store) (r : result A) :
  m st = (r, st) ->
  Stateful.bindM m k st =
  match r with
  | Ok a => k a st
  | Raise e => (Raise e, st)
  end.
Proof. intros H. unfold Stateful.bindM. now rewrite H. Qed.

Lemma stateful_resolve_weights q sd bd (lw : option value) st :
  match lw with
  | None =>
      Stateful.bindM (Stateful.conditioned q)
        (fun cq => Stateful.sum_log_prob q sd bd cq)
  | Some w => Stateful.ret w
  end st =
  (match lw with
   | None => Util.sum_log_prob (Stateful.deref st q) sd bd
                               (conditioned (Stateful.deref st q))
   | Some w => Ok w
   end, st).
Proof. now destruct lw. Qed.

Lemma stateful_weighted q sd bd lw (v : value) st :
  Stateful.bindM
    match lw with
    | None =>
        Stateful.bindM (Stateful.conditioned q)
          (fun cq => Stateful.sum_log_prob q sd bd cq)
    | Some w => Stateful.ret w
    end
    (fun log_weights =>
       if is_number log_weights then Stateful.lift (py_mean v)
       else
         Stateful.bindM (Stateful.lift (softmax log_weights)) (fun weights =>
         Stateful.bindM (Stateful.lift (py_mul weights v)) (fun wl =>
         Stateful.bindM (Stateful.lift (py_sum0 wl)) (fun s =>
         Stateful.lift (py_mean s))))) st =
  (log_weights <- match lw with
                  | None => Util.sum_log_prob (Stateful.deref st q) sd bd
                              (conditioned (Stateful.deref st q))
                  | Some w => Ok w
                  end ;;
   if is_number log_weights then py_mean v
   else
     weights <- softmax log_weights ;;
     wl <- py_mul weights v ;;
     s <- py_sum0 wl ;;
     py_mean s, st).
Proof.
  rewrite (bindM_pure _ _ st _ (stateful_resolve_weights q sd bd lw st)).
  destruct (match lw with None => _ | Some w => Ok w end) as [w|e];
    cbn [bind]; [|reflexivity].
  destruct (is_number w); [reflexivity|].
  unfold Stateful.bindM, Stateful.lift.
  destruct (softmax w) as [ws|e]; cbn [bind]; [|reflexivity].
  destruct (py_mul ws v) as [wl|e]; cbn [bind]; [|reflexivity].
  destruct (py_sum0 wl) as [s|e]; reflexivity.
Qed.

Lemma stateful_log_like_refines q p sd bd lw st :
  Stateful.log_like Stateful.sum_log_prob q p sd bd lw st =
  (log_like Util.sum_log_prob (Stateful.deref st q) (Stateful.deref st p)
            sd bd lw, st).
Proof.
  unfold Stateful.log_like, log_like.
  rewrite (bindM_pure _ _ st (Ok (conditioned (Stateful.deref st p))))
    by reflexivity.
  rewrite (bindM_pure _ _ st _ (stateful_filter_absent q _ st)).
  erewrite bindM_pure by reflexivity.
  destruct (Util.sum_log_prob (Stateful.deref st p) sd bd _) as [lp|e];
    cbn [bind]; [|reflexivity].
  destruct sd as [d|]; [|reflexivity].
  apply stateful_weighted.
Qed.

Lemma stateful_kl_refines q p sd bd lw st :
  Stateful.kl Stateful.sum_log_prob q p sd bd lw st =
  (kl Util.sum_log_prob (Stateful.deref st q) (Stateful.deref st p)
      sd bd lw, st).
Proof.
  unfold Stateful.kl, kl.
  rewrite (bindM_pure _ _ st (Ok (sampled (Stateful.deref st q))))
    by reflexivity.
  erewrite bindM_pure by reflexivity.
  destruct (Util.sum_log_prob (Stateful.deref st p) sd bd _) as [lp|e];
    cbn [bind]; [|reflexivity].
  erewrite bindM_pure by reflexivity.
  destruct (Util.sum_log_prob (Stateful.deref st q) sd bd _) as [lq|e];
    cbn [bind]; [|reflexivity].
  erewrite bindM_pure by reflexivity.
  destruct (py_sub lq lp) as [lqp|e]; cbn [bind]; [|reflexivity].
  destruct sd as [d|]; [|reflexivity].
  apply stateful_weighted.
Qed.

Lemma stateful_ml_refines q sd bd st :
  Stateful.ml Stateful.sum_log_prob q sd bd st =
  (ml Util.sum_log_prob (Stateful.deref st q) sd bd, st).
Proof.
  unfold Stateful.ml, ml.
  rewrite (bindM_pure _ _ st (Ok (conditioned (Stateful.deref st q))))
    by reflexivity.
  erewrite bindM_pure by reflexivity.
  destruct (Util.sum_log_prob (Stateful.deref st q) sd bd _) as [w|e];
    cbn [bind]; [|reflexivity].
  now destruct (is_number w).
Qed.

Lemma stateful_elbo_refines q p sd bd alpha beta st :
  Stateful.elbo Stateful.sum_log_prob q p sd bd alpha beta st =
  (elbo Util.sum_log_prob (Stateful.deref st q) (Stateful.deref st p)
        sd bd alpha beta, st).
Proof.
  unfold Stateful.elbo, elbo.
  rewrite (bindM_pure _ _ st (Ok (conditioned (Stateful.deref st q))))
    by reflexivity.
  erewrite bindM_pure by reflexivity.
  destruct (Util.sum_log_prob (Stateful.deref st q) sd bd _) as [w|e];
    cbn [bind]; [|reflexivity].
  rewrite (bindM_pure _ _ st _ (stateful_log_like_refines q p sd bd _ st)).
  destruct (log_like _ _ _ _ _ _) as [l|e]; cbn [bind]; [|reflexivity].
  rewrite (bindM_pure _ _ st _ (stateful_kl_refines q p sd bd _ st)).
  destruct (kl _ _ _ _ _ _) as [k|e]; cbn [bind]; [|reflexivity].
  erewrite bindM_pure by reflexivity.
  destruct (py_mul (Num beta) k) as [bk|e]; cbn [bind]; [|reflexivity].
  erewrite bindM_pure by reflexivity.
  destruct (py_sub l bk) as [d|e]; cbn [bind]; [|reflexivity].
  rewrite (bindM_pure _ _ st _ (stateful_ml_refines q sd bd st)).
  destruct (ml _ _ _ _) as [m|e]; cbn [bind]; [|reflexivity].
  erewrite bindM_pure by reflexivity.
  destruct (py_mul (Num alpha) m) as [am|e]; reflexivity.
Qed.

(** ** What the estimators return, and when *)

Section ReturnFacts.

Variable sum_log_prob :
  trace -> option Z -> option Z -> list string -> result value.

Lemma elbo_scalar q p sd bd alpha beta v :
  elbo sum_log_prob q p sd bd alpha beta = Ok v -> is_scalar_tensor v.
Proof.
  unfold elbo.
  destruct (sum_log_prob q sd bd (conditioned q)) as [w|e];
    cbn [bind]; [|discriminate].
  destruct (log_like sum_log_prob q p sd bd (Some w)) as [l|e] eqn:El;
    cbn [bind]; [|discriminate].
  destruct (kl sum_log_prob q p sd bd (Some w)) as [k|e] eqn:Ek;
    cbn [bind]; [|discriminate].
  apply log_like_scalar in El as [a ->].
  apply kl_scalar in Ek as [b ->]. simpl.
  destruct (ml sum_log_prob q sd bd) as [m|e] eqn:Em; simpl; [|discriminate].
  apply ml_scalar in Em as [[c ->]|[c ->]]; simpl;
    intros H; injection H as <-; eexists; reflexivity.
Qed.

(** X1. Whatever the traces, a call of [log_like], [kl] or [elbo] that
    returns, returns a 0-dimensional tensor, never a plain number and
    never a tensor with an axis left; [ml] returns a plain number or a
    0-dimensional tensor. *)
Theorem estimators_return_scalars q p sd bd lw alpha beta :
  (forall v, log_like sum_log_prob q p sd bd lw = Ok v ->
             exists r, v = Ten (T0 r))
  /\ (forall v, kl sum_log_prob q p sd bd lw = Ok v ->
                exists r, v = Ten (T0 r))
  /\ (forall v, ml sum_log_prob q sd bd = Ok v ->
                (exists r, v = Num r) \/ exists r, v = Ten (T0 r))
  /\ (forall v, elbo sum_log_prob q p sd bd alpha beta = Ok v ->
                exists r, v = Ten (T0 r)).
Proof.
  repeat split; intros v H.
  - eapply log_like_scalar; eauto.
  - eapply kl_scalar; eauto.
  - eapply ml_scalar; eauto.
  - eapply elbo_scalar; eauto.
Qed.

Lemma is_ok_true {A : Type} (m : result A) :
  is_ok m = true <-> exists a, m = Ok a.
Proof.
  destruct m as [a|e]; simpl; split; intros H;
    eauto; try discriminate; now destruct H.
Qed.

Lemma py_mean_ok_iff (v : value) :
  is_ok (py_mean v) = true <-> exists t, v = Ten t.
Proof.
  destruct v as [r|t]; simpl; split; intros H;
    eauto; try discriminate; now destruct H.
Qed.

(** X2. On the unweighted path (no sample axis, or bare-number
    log-weights) [log_like] returns exactly when the reduction of [p]
    over [x] returns a tensor, and [kl] exactly when both reductions
    return and their difference is a tensor; [ml] returns exactly when
    its reduction returns. *)
Theorem unweighted_path_returns_iff q p sd bd lw :
  degenerate sum_log_prob q sd bd lw ->
  (is_ok (log_like sum_log_prob q p sd bd lw) = true <->
   exists t, sum_log_prob p sd bd (decoder_only q p) = Ok (Ten t))
  /\ (is_ok (kl sum_log_prob q p sd bd lw) = true <->
      exists log_p log_q t,
        sum_log_prob p sd bd (sampled q) = Ok log_p
        /\ sum_log_prob q sd bd (sampled q) = Ok log_q
        /\ py_sub log_q log_p = Ok (Ten t))
  /\ (is_ok (ml sum_log_prob q sd bd) = true <->
      is_ok (sum_log_prob q sd bd (conditioned q)) = true).
Proof.
  intros Hd. rewrite log_like_estimate, kl_estimate. repeat split.
  - destruct (sum_log_prob p sd bd (decoder_only q p)) as [lp|e];
      simpl; [|discriminate].
    rewrite estimate_degenerate by assumption. intros H.
    apply py_mean_ok_iff in H as [t ->]. now exists t.
  - intros [t ->]. simpl. now rewrite estimate_degenerate.
  - destruct (sum_log_prob p sd bd (sampled q)) as [lp|e] eqn:Ep;
      cbn [bind]; [|discriminate].
    destruct (sum_log_prob q sd bd (sampled q)) as [lq|e] eqn:Eq;
      cbn [bind]; [|discriminate].
    destruct (py_sub lq lp) as [lqp|e] eqn:Es; cbn [bind]; [|discriminate].
    rewrite estimate_degenerate by assumption. intros H.
    apply py_mean_ok_iff in H as [t ->]. now exists lp, lq, t.
  - intros (lp & lq & t & -> & -> & Hs). simpl. rewrite Hs. simpl.
    now rewrite estimate_degenerate.
  - unfold ml. destruct (sum_log_prob q sd bd (conditioned q)) as [[r|t]|e];
      simpl; auto.
  - unfold ml. destruct (sum_log_prob q sd bd (conditioned q)) as [[r|t]|e];
      simpl; auto.
Qed.

(** X3. A name of the set [x] that [log_like] reduces over is conditioned
    in [p] and is neither a conditioned nor a sampled name of [q]: [x] is
    disjoint from [y] and [z] without any check of the traces. *)
Theorem decoder_only_disjoint (q p : trace) (n : string) :
  In n (decoder_only q p) ->
  In n (conditioned p) /\ ~ In n (conditioned q) /\ ~ In n (sampled q).
Proof.
  intros H. apply decoder_only_spec in H as (Hp & Hq).
  split; [assumption|]. split; intros Hin.
  - apply conditioned_spec in Hin as (nd & Hin & _). exact (Hq nd Hin).
  - apply sampled_spec in Hin as (nd & Hin & _). exact (Hq nd Hin).
Qed.

(** X4. [elbo] reduces [q]'s conditioned log-density before anything
    else, so an exception of that reduction is the exception of [elbo],
    also without a sample axis; when the reduction returns, [elbo] is
    the combination of [log_like], [kl] and [ml] each called on its own
    with [log_weights] left out. *)
Theorem elbo_of_standalone_terms q p sd bd alpha beta :
  (forall e, sum_log_prob q sd bd (conditioned q) = Raise e ->
             elbo sum_log_prob q p sd bd alpha beta = Raise e)
  /\ (forall w, sum_log_prob q sd bd (conditioned q) = Ok w ->
        elbo sum_log_prob q p sd bd alpha beta =
        (l <- log_like sum_log_prob q p sd bd None ;;
         k <- kl sum_log_prob q p sd bd None ;;
         m <- ml sum_log_prob q sd bd ;;
         Ok (Ten (T0 (item l - beta * item k + alpha * item m))))).
Proof.
  split.
  - intros e He. unfold elbo. now rewrite He.
  - intros w Hw.
    assert (Hl : log_like sum_log_prob q p sd bd (Some w) =
                 log_like sum_log_prob q p sd bd None).
    { rewrite !log_like_estimate. unfold estimate, default_log_weights.
      now rewrite Hw. }
    assert (Hk : kl sum_log_prob q p sd bd (Some w) =
                 kl sum_log_prob q p sd bd None).
    { rewrite !kl_estimate. unfold estimate, default_log_weights.
      now rewrite Hw. }
    unfold elbo. rewrite Hw. cbn [bind]. rewrite Hl, Hk.
    destruct (log_like sum_log_prob q p sd bd None) as [l|e] eqn:El;
      cbn [bind]; [|reflexivity].
    destruct (kl sum_log_prob q p sd bd None) as [k|e] eqn:Ek;
      cbn [bind]; [|reflexivity].
    apply log_like_scalar in El as [a ->].
    apply kl_scalar in Ek as [b ->]. simpl.
    destruct (ml sum_log_prob q sd bd) as [m|e] eqn:Em; simpl; [|reflexivity].
    apply ml_scalar in Em as [[c ->]|[c ->]]; reflexivity.
Qed.

End ReturnFacts.

(** ** Rectangular tensors *)

Section ShapeFacts.

Lemma has_shape_tmap (f : R -> R) (sh : list nat) :
  forall t, has_shape sh t -> has_shape sh (tmap f t).
Proof.
  induction sh as [|n sh IH]; intros t Ht.
  - destruct Ht as [x ->]. now exists (f x).
  - destruct Ht as (ts & -> & Hlen & Hall). exists (map (tmap f) ts).
    split; [reflexivity|]. split; [now rewrite length_map|].
    apply Forall_map. eapply Forall_impl; [|exact Hall]. exact IH.
Qed.

Lemma has_shape_tzip (f : R -> R -> R) (sh : list nat) :
  forall a b, has_shape sh a -> has_shape sh b -> has_shape sh (tzip f a b).
Proof.
  induction sh as [|n sh IH]; intros a b Ha Hb.
  - destruct Ha as [x ->], Hb as [y ->]. now exists (f x y).
  - destruct Ha as (xs & -> & Hx & Hxs), Hb as (ys & -> & Hy & Hys).
    simpl. eexists. split; [reflexivity|].
    subst n. revert ys Hy Hys.
    induction Hxs as [|x xs Hx0 _ IHxs]; intros [|y ys] Hy Hys;
      try discriminate.
    + split; constructor.
    + inversion Hys; subst. injection Hy as Hy.
      destruct (IHxs ys Hy) as [Hlen Hall]; [assumption|].
      split; [simpl; now rewrite Hlen|].
      constructor; [now apply IH | assumption].
Qed.

Lemma has_shape_fold_tzip (f : R -> R -> R) (sh : list nat)
      (l : list tensor) :
  forall u, has_shape sh u -> Forall (has_shape sh) l ->
            has_shape sh (fold_left (tzip f) l u).
Proof.
  induction l as [|t l IH]; intros u Hu Hl; simpl; [assumption|].
  inversion Hl; subst. apply IH; [now apply has_shape_tzip | assumption].
Qed.

Lemma has_shape_softmax0 (sh : list nat) (t : tensor) :
  has_shape sh t -> has_shape sh (softmax0 t).
Proof.
  destruct sh as [|n sh]; intros Ht.
  - destruct Ht as [x ->]. simpl. eexists. reflexivity.
  - destruct Ht as (ts & -> & Hlen & Hall).
    assert (Hes : Forall (has_shape sh) (map (tmap exp) ts)).
    { apply Forall_map. eapply Forall_impl; [|exact Hall].
      apply has_shape_tmap. }
    unfold softmax0. cbv zeta. eexists. split; [reflexivity|].
    split; [now rewrite !length_map|].
    destruct ts as [|t0 ts]; [constructor|].
    apply Forall_map. eapply Forall_impl; [|exact Hes].
    intros e He. apply has_shape_tzip; [exact He|].
    simpl in Hes |- *. inversion Hes; subst.
    now apply has_shape_fold_tzip.
Qed.

(** Two tensors of one shape with the same elements are the same. *)
Lemma tensor_ext (sh : list nat) :
  forall a b, has_shape sh a -> has_shape sh b ->
              (forall idx, in_bounds idx sh -> tget idx a = tget idx b) ->
              a = b.
Proof.
  induction sh as [|n sh IH]; intros a b Ha Hb Hget.
  - destruct Ha as [x ->], Hb as [y ->].
    specialize (Hget [] (Forall2_nil _)). simpl in Hget. congruence.
  - destruct Ha as (xs & -> & Hx & Hxs), Hb as (ys & -> & Hy & Hys).
    f_equal. subst n. revert ys Hy Hys Hget.
    induction Hxs as [|x xs Hx0 _ IHxs]; intros [|y ys] Hy Hys Hget;
      try discriminate; [reflexivity|].
    inversion Hys; subst. injection Hy as Hy. f_equal.
    + apply IH; try assumption. intros idx Hidx.
      apply (Hget (0%nat :: idx)). constructor; [simpl; lia | assumption].
    + apply IHxs; try assumption. intros idx Hidx.
      inversion Hidx as [|i ? idx' ? Hi Hidx']; subst.
      apply (Hget (S i :: idx')). constructor; [simpl in *; lia | assumption].
Qed.

Lemma ndim_same_shape (sh : list nat) :
  forall a b, has_shape sh a -> has_shape sh b -> ndim a = ndim b.
Proof.
  induction sh as [|n sh IH]; intros a b Ha Hb.
  - destruct Ha as [x ->], Hb as [y ->]. reflexivity.
  - destruct Ha as (xs & -> & Hx & Hxs), Hb as (ys & -> & Hy & Hys).
    destruct xs as [|x xs], ys as [|y ys]; simpl in *; try lia.
    inversion Hxs; inversion Hys; subst. f_equal. now apply IH.
Qed.

(** Broadcasting two tensors of one shape is the elementwise operation. *)
Lemma broadcast_fuel_same_shape (f : R -> R -> R) (sh : list nat) :
  forall a b fuel,
    has_shape sh a -> has_shape sh b ->
    (S (ndim a + ndim b) <= fuel)%nat ->
    broadcast_fuel fuel f a b = Ok (tzip f a b).
Proof.
  induction sh as [|n sh IH]; intros a b fuel Ha Hb Hfuel.
  - destruct Ha as [x ->], Hb as [y ->].
    destruct fuel; [lia | reflexivity].
  - pose proof (ndim_same_shape (n :: sh) a b Ha Hb) as Hnd.
    destruct Ha as (xs & -> & Hx & Hxs), Hb as (ys & -> & Hy & Hys).
    destruct fuel as [|m]; [lia|].
    cbn [broadcast_fuel]. rewrite Hnd, Nat.compare_refl.
    replace (length xs =? length ys)%nat with true
      by (symmetry; apply Nat.eqb_eq; congruence).
    assert (Hm : forall x y, In x xs -> In y ys ->
                             (S (ndim x + ndim y) <= m)%nat).
    { intros x y Hinx Hiny.
      destruct xs as [|x0 xs]; [destruct Hinx|].
      destruct ys as [|y0 ys]; [destruct Hiny|].
      rewrite Forall_forall in Hxs, Hys.
      assert (ndim x = ndim x0)
        by (apply (ndim_same_shape sh); apply Hxs; simpl; auto).
      assert (ndim y = ndim y0)
        by (apply (ndim_same_shape sh); apply Hys; simpl; auto).
      simpl in Hfuel. lia. }
    assert (Hzip : zipM (broadcast_fuel m f) xs ys =
                   Ok ((fix go (l l' : list tensor) : list tensor :=
                          match l, l' with
                          | x :: t, y :: t' => tzip f x y :: go t t'
                          | _, _ => []
                          end) xs ys)).
    { clear Hfuel Hnd Hx Hy. revert ys Hys Hm.
      induction Hxs as [|x xs Hx0 _ IHxs]; intros [|y ys] Hys Hm;
        try reflexivity.
      inversion Hys; subst. cbn [zipM].
      rewrite (IH x y m) by (try assumption; apply Hm; simpl; auto).
      cbn [bind]. rewrite IHxs; [reflexivity | assumption |].
      intros x' y' Hx' Hy'. apply Hm; simpl; auto. }
    rewrite Hzip. reflexivity.
Qed.

Lemma broadcast_same_shape (f : R -> R -> R) (sh : list nat) (a b : tensor) :
  has_shape sh a -> has_shape sh b -> broadcast f a b = Ok (tzip f a b).
Proof.
  intros Ha Hb. unfold broadcast.
  now apply (broadcast_fuel_same_shape f sh).
Qed.

End ShapeFacts.

(** ** The weights along one column of samples *)

Section WeightFacts.

Lemma tget_slice (idx : list nat) (ws : list tensor) (l : list R) (s : nat) :
  map (tget idx) ws = map Some l ->
  tget (s :: idx) (TN ws) = nth_error l s.
Proof.
  intros H. simpl.
  assert (Hn : nth_error (map (tget idx) ws) s = nth_error (map Some l) s)
    by now rewrite H.
  rewrite !nth_error_map in Hn.
  destruct (nth_error ws s) as [u|], (nth_error l s) as [x|];
    simpl in Hn; congruence.
Qed.

(** The slices of [softmax(w, 0)] at one remaining index, from the
    log-weights [a0 :: col] of the samples at that index. *)
Lemma softmax0_column (t0 : tensor) (ts : list tensor) (idx : list nat)
      (a0 : R) (col : list R) :
  map (tget idx) (t0 :: ts) = map Some (a0 :: col) ->
  exists ws,
    softmax0 (TN (t0 :: ts)) = TN ws
    /\ map (tget idx) ws =
       map Some (map (fun a => exp a / fold_left Rplus (map exp col) (exp a0))
                     (a0 :: col)).
Proof.
  intros Hcol. eexists. split; [reflexivity|].
  pose proof (map_compose_some exp _ idx _ Hcol) as He.
  assert (HT : tget idx (sum0 (TN (map (tmap exp) (t0 :: ts)))) =
               Some (fold_left Rplus (map exp col) (exp a0))).
  { simpl in He. injection He as He0 He'.
    simpl. rewrite tget_fold_tzip, He0, He'. apply fold_lift2_some. }
  rewrite (map_div_some _ _ _ idx _ HT He). f_equal. apply map_map.
Qed.

Lemma exp_total_pos (a0 : R) (col : list R) :
  0 < fold_left Rplus (map exp col) (exp a0).
Proof.
  apply fold_plus_pos; [apply exp_pos|].
  apply Forall_forall. intros x Hx. apply in_map_iff in Hx as (a & <- & _).
  apply exp_pos.
Qed.

Lemma fold_plus_scale (c : R) (xs : list R) :
  forall y,
    fold_left Rplus (map (fun x => x * c) xs) (y * c) =
    fold_left Rplus xs y * c.
Proof.
  induction xs as [|x xs IH]; intros y; simpl; [reflexivity|].
  rewrite <- IH. f_equal. ring.
Qed.

Lemma numel_pos (sh : list nat) :
  forall t, has_shape sh t -> Forall (fun n => (0 < n)%nat) sh ->
            (0 < numel t)%nat.
Proof.
  induction sh as [|n sh IH]; intros t Ht Hpos.
  - destruct Ht as [x ->]. simpl. lia.
  - destruct Ht as (ts & -> & Hlen & Hall). inversion Hpos; subst.
    destruct ts as [|u ts]; [simpl in *; lia|].
    inversion Hall; subst. simpl.
    assert (0 < numel u)%nat by now apply IH. lia.
Qed.

(** A rectangular tensor whose elements all are [c] sums to [c] times
    its number of elements. *)
Lemma const_tensor_sum (c : R) (sh : list nat) :
  forall t, has_shape sh t ->
            (forall idx, in_bounds idx sh -> tget idx t = Some c) ->
            tsum t = c * INR (numel t).
Proof.
  induction sh as [|n sh IH]; intros t Ht Hget.
  - destruct Ht as [x ->]. specialize (Hget [] (Forall2_nil _)).
    simpl in Hget. injection Hget as ->. simpl. ring.
  - destruct Ht as (ts & -> & Hlen & Hall). subst n.
    assert (Hch : Forall (fun u => tsum u = c * INR (numel u)) ts).
    { apply Forall_forall. intros u Hu.
      rewrite Forall_forall in Hall. apply IH; [now apply Hall|].
      intros idx Hidx. apply In_nth_error in Hu as [i Hi].
      specialize (Hget (i :: idx)). simpl in Hget. rewrite Hi in Hget.
      apply Hget. constructor; [|assumption].
      apply nth_error_Some. congruence. }
    clear Hget Hall. simpl.
    induction Hch as [|u ts Hu _ IHts]; simpl; [ring|].
    rewrite IHts, Hu, plus_INR. ring.
Qed.

Lemma const_tensor_mean (c : R) (sh : list nat) (t : tensor) :
  has_shape sh t ->
  Forall (fun n => (0 < n)%nat) sh ->
  (forall idx, in_bounds idx sh -> tget idx t = Some c) ->
  tmean t = c.
Proof.
  intros Ht Hpos Hget. unfold tmean.
  rewrite (const_tensor_sum c sh t Ht Hget).
  assert (INR (numel t) <> 0).
  { apply not_0_INR. pose proof (numel_pos sh t Ht Hpos). lia. }
  now field.
Qed.

(** With well-shaped weights the weighted estimate of a plain number is
    that number. *)
Lemma weighted_mean_number (w : tensor) (n : nat) (rest : list nat) (r : R) :
  shape w = Some (S n :: rest) ->
  Forall (fun k => (0 < k)%nat) rest ->
  weighted_mean w (Num r) = Ok (Ten (T0 r)).
Proof.
  intros Hsh Hpos. apply shape_has_shape in Hsh.
  pose proof (has_shape_softmax0 _ _ Hsh) as Hsm.
  destruct Hsh as (ts & -> & Hlen & Hall).
  destruct ts as [|t0 ts]; [discriminate|].
  unfold weighted_mean. cbn [py_mul binop bind py_sum0 py_mean].
  do 3 f_equal.
  destruct Hsm as (ws & Hws & Hwlen & Hwall). rewrite Hws.
  destruct ws as [|w0 ws]; [discriminate|].
  cbn [tmap map sum0].
  assert (Hmapped : Forall (has_shape rest)
                      (map (tmap (fun x => x * r)) (w0 :: ws))).
  { apply Forall_map. eapply Forall_impl; [|exact Hwall].
    apply has_shape_tmap. }
  apply (const_tensor_mean r rest).
  - simpl in Hmapped. inversion Hmapped; subst.
    now apply has_shape_fold_tzip.
  - assumption.
  - intros idx Hidx.
    destruct (column_defined rest idx (t0 :: ts) Hall Hidx) as [[|a0 col] Hcol];
      [discriminate|].
    destruct (softmax0_column t0 ts idx a0 col Hcol) as (ws' & Hws' & Hcols).
    rewrite Hws in Hws'. injection Hws' as <-.
    pose proof (map_compose_some (fun x => x * r) _ idx _ Hcols) as Hm.
    simpl in Hm. injection Hm as Hm0 Hm'.
    rewrite tget_fold_tzip, Hm0, Hm', fold_lift2_some. f_equal.
    set (T := fold_left Rplus (map exp col) (exp a0)).
    assert (HT : 0 < T) by apply exp_total_pos.
    rewrite !map_map.
    rewrite (map_ext (fun a => exp a / T * r) (fun a => exp a * (/ T * r)))
      by (intros; unfold Rdiv; ring).
    replace (exp a0 / T * r) with (exp a0 * (/ T * r)) by (unfold Rdiv; ring).
    rewrite <- (map_map exp (fun x => x * (/ T * r))).
    rewrite fold_plus_scale. fold T. field. lra.
Qed.

End WeightFacts.

Section WeightedPath.

Variable sum_log_prob :
  trace -> option Z -> option Z -> list string -> result value.

(** X5. On the importance-weighted path a reduction that is a plain
    number does not raise: with log-weights of shape [S n :: rest], no
    axis of size zero, [log_like] returns that number and [kl] the
    difference of its two numbers, as 0-dimensional tensors. *)
Theorem weighted_path_accepts_number q p d bd lw w n rest :
  match lw with
  | Some v => Ok v
  | None => default_log_weights sum_log_prob q (Some d) bd
  end = Ok (Ten w) ->
  shape w = Some (S n :: rest) ->
  Forall (fun k => (0 < k)%nat) rest ->
  (forall r,
      sum_log_prob p (Some d) bd (decoder_only q p) = Ok (Num r) ->
      log_like sum_log_prob q p (Some d) bd lw = Ok (Ten (T0 r)))
  /\ (forall a b,
         sum_log_prob p (Some d) bd (sampled q) = Ok (Num a) ->
         sum_log_prob q (Some d) bd (sampled q) = Ok (Num b) ->
         kl sum_log_prob q p (Some d) bd lw = Ok (Ten (T0 (b - a)))).
Proof.
  intros Hw Hsh Hpos. split.
  - intros r Hr. rewrite log_like_estimate, Hr. cbn [bind].
    unfold estimate. rewrite Hw. cbn [bind].
    now apply (weighted_mean_number w n rest).
  - intros a b Ha Hb. rewrite kl_estimate, Ha. cbn [bind].
    rewrite Hb. cbn [bind py_sub binop].
    unfold estimate. rewrite Hw. cbn [bind].
    now apply (weighted_mean_number w n rest).
Qed.

End WeightedPath.

Lemma weighted_path_accepts_number_witness :
  Util.sum_log_prob [] (Some 0%Z) None (decoder_only q_S []) = Ok (Num 0)
  /\ log_like Util.sum_log_prob q_S [] (Some 0%Z) None None = Ok (Ten (T0 0)).
Proof.
  split; [reflexivity|].
  apply (weighted_path_accepts_number
           Util.sum_log_prob q_S [] 0%Z None None w_S 1 []);
    try reflexivity. constructor.
Defined.

(** ** Log-weights up to a constant *)

Lemma exp_total_shift (c a0 : R) (col : list R) :
  fold_left Rplus (map exp (map (fun x => x + c) col)) (exp (a0 + c)) =
  fold_left Rplus (map exp col) (exp a0) * exp c.
Proof.
  rewrite map_map.
  rewrite (map_ext (fun x => exp (x + c)) (fun x => exp x * exp c))
    by (intros; apply exp_plus).
  rewrite exp_plus, <- (map_map exp (fun x => x * exp c)).
  apply fold_plus_scale.
Qed.

Lemma softmax0_shift (c : R) (w : tensor) (sh : list nat) :
  shape w = Some sh ->
  softmax0 (tmap (fun x => x + c) w) = softmax0 w.
Proof.
  intros Hsh. apply shape_has_shape in Hsh.
  pose proof (has_shape_softmax0 _ _ Hsh) as H1.
  pose proof (has_shape_softmax0 _ _ (has_shape_tmap (fun x => x + c) _ _ Hsh))
    as H2.
  destruct sh as [|n rest].
  - destruct Hsh as [x ->]. simpl. f_equal.
    pose proof (exp_pos x). pose proof (exp_pos (x + c)). field. lra.
  - apply (tensor_ext (n :: rest)); try assumption.
    intros idx Hidx. inversion Hidx as [|s ? idx' ? Hs Hidx']; subst.
    destruct Hsh as (ts & -> & Hlen & Hall).
    destruct ts as [|t0 ts]; [reflexivity|].
    destruct (column_defined rest idx' (t0 :: ts) Hall Hidx')
      as [[|a0 col] Hcol]; [discriminate|].
    pose proof (map_compose_some (fun x => x + c) _ idx' _ Hcol) as Hcol'.
    destruct (softmax0_column t0 ts idx' a0 col Hcol) as (ws & Hws & Hc).
    destruct (softmax0_column (tmap (fun x => x + c) t0)
                (map (tmap (fun x => x + c)) ts) idx'
                (a0 + c) (map (fun x => x + c) col) Hcol')
      as (ws' & Hws' & Hc').
    change (tmap (fun x => x + c) (TN (t0 :: ts)))
      with (TN (tmap (fun x => x + c) t0 :: map (tmap (fun x => x + c)) ts)).
    rewrite Hws, Hws', (tget_slice _ _ _ _ Hc), (tget_slice _ _ _ _ Hc').
    f_equal. rewrite exp_total_shift.
    pose proof (exp_total_pos a0 col) as HT.
    pose proof (exp_pos c) as Hc0.
    change (map (fun x => x + c) (a0 :: col))
      with ((fun x => x + c) a0 :: map (fun x => x + c) col).
    rewrite <- (map_cons (fun x => x + c)), map_map. apply map_ext.
    intros a. rewrite exp_plus. field. lra.
Qed.

(** X6. Supplied log-weights count only up to an additive constant:
    adding [c] to every element of the log-weight tensor changes neither
    [log_like] nor [kl]. *)
Theorem log_weights_shift_invariant
        (sum_log_prob : trace -> option Z -> option Z -> list string ->
                        result value)
        q p sd bd (w : tensor) (sh : list nat) (c : R) :
  shape w = Some sh ->
  log_like sum_log_prob q p sd bd (Some (Ten (tmap (fun x => x + c) w))) =
    log_like sum_log_prob q p sd bd (Some (Ten w))
  /\ kl sum_log_prob q p sd bd (Some (Ten (tmap (fun x => x + c) w))) =
     kl sum_log_prob q p sd bd (Some (Ten w)).
Proof.
  intros Hsh. rewrite !log_like_estimate, !kl_estimate.
  unfold estimate, weighted_mean. cbn [bind].
  now rewrite (softmax0_shift c w sh Hsh).
Qed.

Lemma log_weights_shift_invariant_witness :
  shape w_22 = Some [2%nat; 2%nat]
  /\ log_like Util.sum_log_prob q_S p_S (Some 0%Z) None
       (Some (Ten (tmap (fun x => x + 5) w_22))) =
     log_like Util.sum_log_prob q_S p_S (Some 0%Z) None (Some (Ten w_22)).
Proof.
  split; [reflexivity|].
  apply (log_weights_shift_invariant
           Util.sum_log_prob q_S p_S (Some 0%Z) None w_22 [2%nat; 2%nat] 5).
  reflexivity.
Defined.

(** ** A trace against itself *)

Lemma tsum_tzip_minus_self (t : tensor) : tsum (tzip Rminus t t) = 0.
Proof.
  induction t as [x|ts IH] using tensor_nested_ind; simpl; [ring|].
  induction IH as [|u ts Hu _ IHts]; simpl; [reflexivity|].
  rewrite Hu, IHts. ring.
Qed.

(** X7. On the unweighted path [kl] of a trace against itself is zero
    whenever the reduction over the sampled names is a tensor with at
    least one element (real-valued, so finite, log-densities). *)
Theorem kl_self_zero
        (sum_log_prob : trace -> option Z -> option Z -> list string ->
                        result value)
        q sd bd lw (t : tensor) (sh : list nat) :
  degenerate sum_log_prob q sd bd lw ->
  sum_log_prob q sd bd (sampled q) = Ok (Ten t) ->
  shape t = Some sh ->
  Forall (fun k => (0 < k)%nat) sh ->
  kl sum_log_prob q q sd bd lw = Ok (Ten (T0 0)).
Proof.
  intros Hd Ht Hsh _. apply shape_has_shape in Hsh.
  rewrite kl_estimate, Ht. cbn [bind py_sub binop].
  rewrite (broadcast_same_shape Rminus sh t t Hsh Hsh). cbn [fmap bind].
  rewrite estimate_degenerate by assumption. cbn [py_mean].
  do 3 f_equal. unfold tmean. rewrite tsum_tzip_minus_self.
  unfold Rdiv. ring.
Qed.

Lemma kl_self_zero_witness :
  kl Util.sum_log_prob q_A q_A None None None = Ok (Ten (T0 0)).
Proof.
  apply (kl_self_zero Util.sum_log_prob q_A None None None (T0 (0 + 2)) []).
  - left. reflexivity.
  - reflexivity.
  - reflexivity.
  - constructor.
Defined.

(** ** Equal log-weights for every sample *)

Section UniformWeights.

Lemma tsum_tmap_scale (c : R) (t : tensor) :
  tsum (tmap (fun x => x * c) t) = tsum t * c.
Proof.
  induction t as [x|ts IH] using tensor_nested_ind; simpl; [reflexivity|].
  induction IH as [|u ts Hu _ IHts]; simpl; [ring|].
  rewrite Hu, IHts. ring.
Qed.

Lemma tsum_tzip_plus (sh : list nat) :
  forall a b, has_shape sh a -> has_shape sh b ->
              tsum (tzip Rplus a b) = tsum a + tsum b.
Proof.
  induction sh as [|n sh IH]; intros a b Ha Hb.
  - destruct Ha as [x ->], Hb as [y ->]. reflexivity.
  - destruct Ha as (xs & -> & Hx & Hxs), Hb as (ys & -> & Hy & Hys).
    subst n. simpl. revert ys Hy Hys.
    induction Hxs as [|x xs Hx0 _ IHxs]; intros [|y ys] Hy Hys;
      try discriminate; simpl; [ring|].
    inversion Hys; subst. injection Hy as Hy.
    rewrite (IH x y), (IHxs ys) by assumption. ring.
Qed.

Lemma tsum_fold_tzip_plus (sh : list nat) (l : list tensor) :
  forall u, has_shape sh u -> Forall (has_shape sh) l ->
            tsum (fold_left (tzip Rplus) l u) =
            fold_left Rplus (map tsum l) (tsum u).
Proof.
  induction l as [|t l IH]; intros u Hu Hl; simpl; [reflexivity|].
  inversion Hl; subst.
  rewrite IH by (try assumption; now apply has_shape_tzip).
  now rewrite (tsum_tzip_plus sh).
Qed.

Lemma fold_plus_shift (xs : list R) :
  forall y, fold_left Rplus xs y = y + fold_right Rplus 0 xs.
Proof.
  induction xs as [|x xs IH]; intros y; simpl; [ring|].
  rewrite IH. ring.
Qed.

Lemma tsum_slices (t0 : tensor) (ts : list tensor) :
  tsum (TN (t0 :: ts)) = fold_left Rplus (map tsum ts) (tsum t0).
Proof.
  rewrite fold_plus_shift. simpl. f_equal.
  induction ts as [|u ts IH]; simpl; [reflexivity|]. now rewrite IH.
Qed.

Lemma numel_shape (sh : list nat) :
  forall t, has_shape sh t -> numel t = fold_right Nat.mul 1%nat sh.
Proof.
  induction sh as [|n sh IH]; intros t Ht.
  - destruct Ht as [x ->]. reflexivity.
  - destruct Ht as (ts & -> & Hlen & Hall). subst n. simpl.
    induction Hall as [|u ts Hu _ IHts]; simpl; [reflexivity|].
    rewrite IHts, (IH u Hu). reflexivity.
Qed.

Lemma fold_plus_repeat (x : R) (n : nat) :
  forall y, fold_left Rplus (repeat x n) y = y + INR n * x.
Proof.
  induction n as [|n IH]; intros y.
  - simpl. ring.
  - cbn [repeat fold_left]. rewrite IH, S_INR. ring.
Qed.

Lemma tzip_repeat (f : R -> R -> R) (o : tensor) (ts : list tensor) :
  tzip f (TN (repeat o (length ts))) (TN ts) = TN (map (tzip f o) ts).
Proof.
  simpl. f_equal. induction ts as [|t ts IH]; simpl; [reflexivity|].
  now rewrite IH.
Qed.

(** Every slice of the softmax of equal log-weights holds [1 / S]. *)
Lemma uniform_weight_slice (u : tensor) (n : nat) (rest : list nat)
      (v : tensor) :
  has_shape rest u -> has_shape rest v ->
  tzip Rmult
       (tzip Rdiv (tmap exp u)
             (fold_left (tzip Rplus) (repeat (tmap exp u) n) (tmap exp u)))
       v =
  tmap (fun x => x * / INR (S n)) v.
Proof.
  intros Hu Hv.
  assert (He : has_shape rest (tmap exp u)) by now apply has_shape_tmap.
  assert (Htot : has_shape rest
                   (fold_left (tzip Rplus) (repeat (tmap exp u) n)
                              (tmap exp u))).
  { apply has_shape_fold_tzip; [assumption|].
    apply Forall_forall. intros e Hin. apply repeat_spec in Hin. now subst. }
  apply (tensor_ext rest).
  - apply has_shape_tzip; [now apply has_shape_tzip | assumption].
  - now apply has_shape_tmap.
  - intros idx Hidx.
    destruct (has_shape_tget rest u idx Hu Hidx) as [a Ha].
    destruct (has_shape_tget rest v idx Hv Hidx) as [x Hx].
    rewrite !tget_tzip, tget_fold_tzip, !tget_tmap, map_repeat, tget_tmap.
    rewrite Ha, Hx. cbn [option_map].
    change (repeat (Some (exp a)) n) with (repeat (Some (exp a)) n).
    rewrite <- (map_repeat (exp a) n Some), fold_lift2_some,
      fold_plus_repeat.
    cbn [lift2]. f_equal. rewrite S_INR.
    pose proof (exp_pos a). pose proof (pos_INR n). field.
    split; nra.
Qed.

(** The weighted estimate under equal log-weights for every sample is
    the plain mean. *)
Lemma weighted_mean_uniform (u t : tensor) (n : nat) (rest : list nat) :
  has_shape rest u ->
  has_shape (S n :: rest) t ->
  weighted_mean (TN (repeat u (S n))) (Ten t) = Ok (Ten (T0 (tmean t))).
Proof.
  intros Hu Ht.
  assert (Hw : has_shape (S n :: rest) (TN (repeat u (S n)))).
  { eexists. split; [reflexivity|]. split; [apply repeat_length|].
    apply Forall_forall. intros e Hin. apply repeat_spec in Hin. now subst. }
  unfold weighted_mean. cbn [py_mul binop].
  rewrite (broadcast_same_shape Rmult (S n :: rest))
    by (try assumption; now apply has_shape_softmax0).
  cbn [fmap bind py_sum0 py_mean]. do 3 f_equal.
  destruct Ht as (ts & -> & Hlen & Hall).
  unfold softmax0. cbv zeta. rewrite !map_repeat.
  change (sum0 (TN (repeat (tmap exp u) (S n))))
    with (fold_left (tzip Rplus) (repeat (tmap exp u) n) (tmap exp u)).
  rewrite <- Hlen, tzip_repeat.
  rewrite (map_ext_in _ (tmap (fun x => x * / INR (S n)))).
  2:{ intros v Hv. rewrite Forall_forall in Hall.
      apply (uniform_weight_slice u n rest v Hu (Hall v Hv)). }
  destruct ts as [|t0 ts]; [discriminate|].
  inversion Hall; subst.
  assert (Hmapped : Forall (has_shape rest)
                      (map (tmap (fun x => x * / INR (S n))) ts)).
  { apply Forall_map. eapply Forall_impl; [|eassumption].
    apply has_shape_tmap. }
  assert (Hfold : has_shape rest
            (fold_left (tzip Rplus)
               (map (tmap (fun x => x * / INR (S n))) ts)
               (tmap (fun x => x * / INR (S n)) t0))).
  { apply has_shape_fold_tzip; [now apply has_shape_tmap | assumption]. }
  cbn [map sum0]. unfold tmean.
  rewrite (tsum_fold_tzip_plus rest)
    by (try assumption; now apply has_shape_tmap).
  rewrite map_map.
  rewrite (map_ext _ (fun v => tsum v * / INR (S n)))
    by (intros; apply tsum_tmap_scale).
  rewrite tsum_tmap_scale, <- (map_map tsum (fun x => x * / INR (S n))).
  rewrite fold_plus_scale, <- tsum_slices.
  rewrite (numel_shape rest _ Hfold).
  rewrite (numel_shape (S n :: rest) (TN (t0 :: ts)))
    by (eexists; repeat split; [exact Hlen | constructor; assumption]).
  cbn [fold_right]. rewrite mult_INR. unfold Rdiv. rewrite Rinv_mult. ring.
Qed.

End UniformWeights.

Section UniformWeightsPath.

Variable sum_log_prob :
  trace -> option Z -> option Z -> list string -> result value.

(** X8. When every sample carries the same log-weights (in particular
    when there is one sample), the importance-weighted path returns what
    the unweighted path returns, the plain [.mean()] of the reduction,
    for a reduction of the shape of the log-weights. *)
Theorem uniform_weights_plain_mean q p d bd lw (u : tensor) (n : nat)
        (rest : list nat) :
  match lw with
  | Some v => Ok v
  | None => default_log_weights sum_log_prob q (Some d) bd
  end = Ok (Ten (TN (repeat u (S n)))) ->
  shape u = Some rest ->
  (forall t,
      sum_log_prob p (Some d) bd (decoder_only q p) = Ok (Ten t) ->
      shape t = Some (S n :: rest) ->
      log_like sum_log_prob q p (Some d) bd lw = py_mean (Ten t))
  /\ (forall log_p log_q t,
         sum_log_prob p (Some d) bd (sampled q) = Ok log_p ->
         sum_log_prob q (Some d) bd (sampled q) = Ok log_q ->
         py_sub log_q log_p = Ok (Ten t) ->
         shape t = Some (S n :: rest) ->
         kl sum_log_prob q p (Some d) bd lw = py_mean (Ten t)).
Proof.
  intros Hw Hu. apply shape_has_shape in Hu. split.
  - intros t Ht Hsh. apply shape_has_shape in Hsh.
    rewrite log_like_estimate, Ht. cbn [bind].
    unfold estimate. rewrite Hw. cbn [bind].
    now apply (weighted_mean_uniform u t n rest).
  - intros lp lq t Hp Hq Hs Hsh. apply shape_has_shape in Hsh.
    rewrite kl_estimate, Hp. cbn [bind]. rewrite Hq. cbn [bind].
    rewrite Hs. cbn [bind].
    unfold estimate. rewrite Hw. cbn [bind].
    now apply (weighted_mean_uniform u t n rest).
Qed.

End UniformWeightsPath.

Lemma uniform_weights_plain_mean_witness :
  Util.sum_log_prob p_S (Some 0%Z) None (decoder_only q_S p_S) =
    Ok (Ten (TN [T0 (0 + 5); T0 (0 + 7)]))
  /\ log_like Util.sum_log_prob q_S p_S (Some 0%Z) None
       (Some (Ten (TN (repeat (T0 0) 2)))) =
     py_mean (Ten (TN [T0 (0 + 5); T0 (0 + 7)])).
Proof.
  split; [reflexivity|].
  apply (uniform_weights_plain_mean
           Util.sum_log_prob q_S p_S 0%Z None
           (Some (Ten (TN (repeat (T0 0) 2)))) (T0 0) 1 []);
    reflexivity.
Defined.

(** ** What [log_like] reads of the encoder, and [elbo] in closed form *)

Section Footprint.

Variable sum_log_prob :
  trace -> option Z -> option Z -> list string -> result value.

(** X9. With log-weights supplied, or without a sample axis, [log_like]
    uses of [q] only which names it holds: two encoder traces with the
    same names give the same result, whatever their nodes. *)
Theorem log_like_reads_names_of_q q q' p sd bd lw :
  (forall n, contains q n = contains q' n) ->
  (forall w, log_like sum_log_prob q p sd bd (Some w) =
             log_like sum_log_prob q' p sd bd (Some w))
  /\ log_like sum_log_prob q p None bd lw =
     log_like sum_log_prob q' p None bd lw.
Proof.
  intros Hn.
  assert (Hx : decoder_only q p = decoder_only q' p).
  { unfold decoder_only. apply filter_ext. intros n. now rewrite Hn. }
  split; [intros w|]; rewrite !log_like_estimate, Hx; reflexivity.
Qed.

(** X10. When the log-weights are a plain number or there is no sample
    axis, [elbo] is [mean(log_prob) - beta * mean(log_q - log_p) +
    alpha * m], with [m] the reduction of [q]'s conditioned log-density
    itself when a number and its mean when a tensor. *)
Theorem elbo_unweighted_closed_form q p sd bd alpha beta
        (w log_p log_q : value) (t1 t2 : tensor) :
  sum_log_prob q sd bd (conditioned q) = Ok w ->
  sd = None \/ is_number w = true ->
  sum_log_prob p sd bd (decoder_only q p) = Ok (Ten t1) ->
  sum_log_prob p sd bd (sampled q) = Ok log_p ->
  sum_log_prob q sd bd (sampled q) = Ok log_q ->
  py_sub log_q log_p = Ok (Ten t2) ->
  elbo sum_log_prob q p sd bd alpha beta =
  Ok (Ten (T0 (tmean t1 - beta * tmean t2
               + alpha * match w with
                         | Num r => r
                         | Ten t => tmean t
                         end))).
Proof.
  intros Hw Hdeg H1 Hp Hq Hs.
  assert (Hd : degenerate sum_log_prob q sd bd (Some w)).
  { destruct Hdeg as [->|Hnum]; [now left|].
    right. destruct w as [r|t]; [now exists r | discriminate]. }
  unfold elbo. rewrite Hw. cbn [bind].
  rewrite log_like_estimate, H1. cbn [bind].
  rewrite estimate_degenerate by assumption. cbn [py_mean bind].
  rewrite kl_estimate, Hp. cbn [bind]. rewrite Hq. cbn [bind].
  rewrite Hs. cbn [bind].
  rewrite estimate_degenerate by assumption. cbn [py_mean bind].
  unfold ml. rewrite Hw. cbn [bind].
  destruct w as [r|t]; reflexivity.
Qed.

End Footprint.

Lemma log_like_reads_names_of_q_witness :
  log_like Util.sum_log_prob q_S p_S (Some 0%Z) None (Some (Ten w_S)) =
  log_like Util.sum_log_prob
    [("z"%string, mk_node true (Num 0)); ("y"%string, mk_node false (Num 1))]
    p_S (Some 0%Z) None (Some (Ten w_S)).
Proof.
  apply (log_like_reads_names_of_q
           Util.sum_log_prob q_S
           [("z"%string, mk_node true (Num 0));
            ("y"%string, mk_node false (Num 1))]
           p_S (Some 0%Z) None None).
  intros n. reflexivity.
Defined.

Lemma elbo_unweighted_closed_form_witness :
  elbo Util.sum_log_prob q_A p_A None None (1 / 10) 1 =
  Ok (Ten (T0 (tmean (T0 (0 + 3)) - 1 * tmean (T0 (0 + 2 - (0 + -1)))
               + 1 / 10 * tmean (T0 (0 + 1))))).
Proof.
  apply (elbo_unweighted_closed_form
           Util.sum_log_prob q_A p_A None None (1 / 10) 1
           (Ten (T0 (0 + 1))) (Ten (T0 (0 + -1))) (Ten (T0 (0 + 2)))
           (T0 (0 + 3)) (T0 (0 + 2 - (0 + -1))));
    solve [reflexivity | left; reflexivity].
Defined.

(** ** Further instances on concrete traces *)

Lemma estimators_return_scalars_witness :
  log_like Util.sum_log_prob q_A p_A None None None =
    Ok (Ten (T0 (tmean (T0 (0 + 3)))))
  /\ exists r, Ten (T0 (tmean (T0 (0 + 3)))) = Ten (T0 r).
Proof.
  split; [reflexivity|].
  apply (proj1 (estimators_return_scalars
                  Util.sum_log_prob q_A p_A None None None 0 0)).
  reflexivity.
Defined.

Lemma unweighted_path_returns_iff_witness :
  degenerate Util.sum_log_prob q_A None None None
  /\ is_ok (log_like Util.sum_log_prob q_A p_A None None None) = true.
Proof.
  assert (Hd : degenerate Util.sum_log_prob q_A None None None)
    by (left; reflexivity).
  split; [exact Hd|].
  apply (proj1 (unweighted_path_returns_iff
                  Util.sum_log_prob q_A p_A None None None Hd)).
  exists (T0 (0 + 3)). reflexivity.
Defined.

Lemma decoder_only_disjoint_witness :
  In "x"%string (decoder_only q_S p_S)
  /\ In "x"%string (conditioned p_S)
  /\ ~ In "x"%string (conditioned q_S)
  /\ ~ In "x"%string (sampled q_S).
Proof.
  assert (Hx : In "x"%string (decoder_only q_S p_S))
    by (left; reflexivity).
  split; [exact Hx|].
  apply (decoder_only_disjoint q_S p_S "x"%string Hx).
Defined.

Lemma elbo_of_standalone_terms_witness :
  Util.sum_log_prob q_S (Some 0%Z) None (conditioned q_S) = Ok (Ten w_S)
  /\ elbo Util.sum_log_prob q_S p_S (Some 0%Z) None (1 / 10) 1 =
     (l <- log_like Util.sum_log_prob q_S p_S (Some 0%Z) None None ;;
      k <- kl Util.sum_log_prob q_S p_S (Some 0%Z) None None ;;
      m <- ml Util.sum_log_prob q_S (Some 0%Z) None ;;
      Ok (Ten (T0 (item l - 1 * item k + 1 / 10 * item m)))).
Proof.
  split; [reflexivity|].
  apply (proj2 (elbo_of_standalone_terms
                  Util.sum_log_prob q_S p_S (Some 0%Z) None (1 / 10) 1)
               (Ten w_S)).
  reflexivity.
Defined.

(** ** The estimates element by element *)

Section ElementFacts.


Lemma fold_left_rsum (xs : list R) (y : R) :
  fold_left Rplus xs y = rsum (y :: xs).
Proof. rewrite fold_plus_shift. reflexivity. Qed.

Lemma rsum_map_div (f : R -> R) (T : R) (l : list R) :
  rsum (map (fun a => f a / T) l) = rsum (map f l) / T.
Proof.
  unfold rsum. induction l as [|x l IH]; simpl.
  - unfold Rdiv. ring.
  - rewrite IH. unfold Rdiv. ring.
Qed.

Lemma rsum_exp_pos (l : list R) : l <> [] -> 0 < rsum (map exp l).
Proof.
  destruct l as [|a l]; [congruence|]. intros _.
  change (rsum (map exp (a :: l))) with (rsum (exp a :: map exp l)).
  rewrite <- fold_left_rsum. apply exp_total_pos.
Qed.

Lemma rsum_softmax_list (l : list R) : l <> [] -> rsum (softmax_list l) = 1.
Proof.
  intros Hl. unfold softmax_list. rewrite rsum_map_div.
  pose proof (rsum_exp_pos l Hl). field. lra.
Qed.

Lemma softmax_list_nonneg (l : list R) :
  l <> [] -> Forall (fun v => 0 <= v) (softmax_list l).
Proof.
  intros Hl. pose proof (rsum_exp_pos l Hl) as HT.
  apply Forall_forall. intros v Hv.
  apply in_map_iff in Hv as (a & <- & _).
  apply Rlt_le, Rdiv_lt_0_compat; [apply exp_pos | assumption].
Qed.

Lemma col_of_column (idx : list nat) (ts : list tensor) :
  forall l, map (tget idx) ts = map Some l -> col (TN ts) idx = l.
Proof.
  unfold col, elem. induction ts as [|t ts IH]; intros [|x l] H;
    try discriminate; [reflexivity|].
  simpl in H. injection H as Ht Hl. simpl. rewrite Ht. f_equal. now apply IH.
Qed.










(** The slices of softmax at one remaining index are the softmax of the
    column of log-weights there. *)
Lemma softmax0_col (t0 : tensor) (ts : list tensor) (rest idx : list nat) :
  Forall (has_shape rest) (t0 :: ts) -> in_bounds idx rest ->
  exists ws l,
    softmax0 (TN (t0 :: ts)) = TN ws
    /\ col (TN (t0 :: ts)) idx = l
    /\ length l = S (length ts)
    /\ map (tget idx) ws = map Some (softmax_list l).
Proof.
  intros Hall Hidx.
  destruct (column_defined rest idx (t0 :: ts) Hall Hidx) as [[|a0 l] Hcol];
    [discriminate|].
  destruct (softmax0_column t0 ts idx a0 l Hcol) as (ws & Hws & Hc).
  exists ws, (a0 :: l). split; [exact Hws|].
  split; [now apply col_of_column|]. split.
  - apply (f_equal (@length _)) in Hcol. rewrite !length_map in Hcol.
    simpl in Hcol |- *. lia.
  - rewrite Hc. unfold softmax_list. rewrite fold_left_rsum. reflexivity.
Qed.




End ElementFacts.

(** ** The estimators element by element *)

Section ElementwiseEstimators.

Variable sum_log_prob :
  trace -> option Z -> option Z -> list string -> result value.




End ElementwiseEstimators.

(** C8. For log-weights with a sample axis of size [S n] in front of axes
    [rest], the weights [softmax(w, 0)] that [log_like] and [kl] build
    are, at every remaining index, the softmax of the [S n] log-weights
    of the samples there: each [exp] over the sum of the [exp]s, each
    nonnegative, and together of sum 1. *)
Theorem softmax_weights_normalized (w : tensor) (n : nat) (rest : list nat) :
  shape w = Some (S n :: rest) ->
  softmax (Ten w) = Ok (Ten (softmax0 w))
  /\ forall idx,
      in_bounds idx rest ->
      col (softmax0 w) idx = softmax_list (col w idx)
      /\ length (col (softmax0 w) idx) = S n
      /\ Forall (fun v => 0 <= v) (col (softmax0 w) idx)
      /\ rsum (col (softmax0 w) idx) = 1
      /\ (forall s, (s < S n)%nat ->
                    exists v, tget (s :: idx) (softmax0 w) = Some v
                              /\ 0 <= v).
Proof.
  intros Hsh. split; [reflexivity|]. intros idx Hidx.
  apply shape_has_shape in Hsh. destruct Hsh as (ts & -> & Hlen & Hall).
  destruct ts as [|t0 ts]; [discriminate|].
  destruct (softmax0_col t0 ts rest idx Hall Hidx)
    as (ws & l & Hws & Hl & Hll & Hc).
  assert (Hne : l <> []) by (destruct l; [discriminate | congruence]).
  assert (Hcol : col (softmax0 (TN (t0 :: ts))) idx = softmax_list l)
    by (rewrite Hws; now apply col_of_column).
  rewrite Hcol, Hl. split; [reflexivity|].
  split; [unfold softmax_list; rewrite length_map; simpl in Hlen; lia|].
  split; [now apply softmax_list_nonneg|].
  split; [now apply rsum_softmax_list|].
  intros s Hs. rewrite Hws, (tget_slice idx ws _ s Hc).
  destruct (nth_error (softmax_list l) s) as [v|] eqn:E.
  - exists v. split; [reflexivity|].
    pose proof (softmax_list_nonneg l Hne) as Hnn.
    rewrite Forall_forall in Hnn. apply Hnn. eapply nth_error_In; eauto.
  - apply nth_error_None in E. unfold softmax_list in E.
    rewrite length_map in E. simpl in Hlen. lia.
Qed.

(** C7. The fallback path does not always return.  A decoder whose
    conditioned names all occur in the encoder leaves [x] empty, the
    reduction is the plain number zero and [log_like] calls [.mean()] on
    it, without a sample axis as with bare-number log-weights; [kl] does
    the same for an encoder without a sampled name.  [ml] meets the same
    plain number with its [isinstance] guard and returns it. *)
Theorem fallback_raises_on_number_reduction :
  log_like Util.sum_log_prob q_A q_A None None None = Raise AttributeError
  /\ log_like Util.sum_log_prob q_A q_A (Some 0%Z) None (Some (Num 0)) =
     Raise AttributeError
  /\ kl Util.sum_log_prob q_y p_A None None None = Raise AttributeError
  /\ ml Util.sum_log_prob q_z None None = Ok (Num 0).
Proof. repeat split; reflexivity. Qed.




Lemma softmax_weights_normalized_witness :
  shape w_22 = Some [2%nat; 2%nat]
  /\ rsum (col (softmax0 w_22) [1%nat]) = 1.
Proof.
  split; [reflexivity|].
  apply (proj2 (softmax_weights_normalized w_22 1 [2%nat] eq_refl) [1%nat]).
  repeat constructor.
Defined.

(** Scenario C of section 8 on the element-level definitions. *)
Example scenario_C_importance_estimate (lp0 lp1 : R) :
  importance_estimate (TN [T0 0; T0 (ln 3)]) [] (col (TN [T0 lp0; T0 lp1])) =
  1 / 4 * lp0 + 3 / 4 * lp1.
Proof.
  unfold importance_estimate, batch_mean, softmax_list, elemwise, rsum,
    col, elem.
  cbn. rewrite exp_0, exp_ln by lra. field.
Qed.
